(** * any_proxy.go: a shallow embedding and its verified properties

    The development follows the source file: [itod] and the helpers on
    strings first (the rest depends on them), then the reverse-lookup cache,
    the connection pool, the directors, the original-destination decoding,
    the dialer and the connection handlers.  Integers of the source are
    modelled in [Z] with the wrap-around of their width written out, Go
    strings as [string] (a sequence of bytes), Go maps as [gmap]. *)

From Stdlib Require Import ZArith Ascii String List Lia DecimalString.
From stdpp Require Import gmap strings list.

Local Open Scope string_scope.
Local Open Scope list_scope.
Local Open Scope Z_scope.

(** ** Bytes and strings *)

(** [byte(z)] of Go: the low eight bits. *)
Definition byte_of_Z (z : Z) : ascii := ascii_of_N (Z.to_N (z mod 256)).

Definition Z_of_byte (c : ascii) : Z := Z.of_N (N_of_ascii c).

Definition is_digit (c : ascii) : bool :=
  (48 <=? Z_of_byte c) && (Z_of_byte c <=? 57).

(** ** [itod] (source lines 825-839) *)

(** The loop [for ; i > 0; i /= 10 { bp--; b[bp] = byte(i%10) + '0' }].
    [bp] only goes down; at [bp = 0] a further iteration would index
    [b[-1]], a run-time panic, rendered as [None]. *)
Fixpoint itod_loop (bp : nat) (i : Z) (b : list ascii) : option (nat * list ascii) :=
  if 0 <? i then
    match bp with
    | O => None
    | S bp' => itod_loop bp' (i / 10) (<[bp' := byte_of_Z (i mod 10 + 48)]> b)
    end
  else Some (bp, b).

Definition itod (i : Z) : option string :=
  if i =? 0 then Some "0"
  else
    match itod_loop 32 i (replicate 32 (byte_of_Z 0)) with
    | Some (bp, b) => Some (string_of_list_ascii (drop bp b))
    | None => None
    end.

(** The number a string of decimal digits denotes, most significant digit
    first. *)
Definition dec_value (s : list ascii) : Z :=
  fold_left (fun acc c => 10 * acc + (Z_of_byte c - 48)) s 0.

(** [s] is the standard decimal numeral of [n]: digits only, of value [n],
    and without a leading zero unless it is the single digit ["0"]. *)
Definition is_decimal_of (s : string) (n : Z) : Prop :=
  let l := list_ascii_of_string s in
  l <> [] /\
  forallb is_digit l = true /\
  dec_value l = n /\
  (s = "0" \/ hd_error l <> Some "0"%char).

(** ** Library functions on strings *)

(** [strings.Contains(s, substr)]: [substr] occurs somewhere in [s]. *)
Fixpoint Contains (s substr : string) : bool :=
  String.prefix substr s ||
  match s with
  | EmptyString => false
  | String _ s' => Contains s' substr
  end.

(** [strings.Split(s, ",")]: the pieces between the commas; the empty string
    splits into one empty piece. *)
Fixpoint Split_comma (s : string) : list string :=
  match s with
  | EmptyString => [EmptyString]
  | String c s' =>
      if Ascii.eqb c ","%char then EmptyString :: Split_comma s'
      else match Split_comma s' with
           | piece :: pieces => String c piece :: pieces
           | [] => [String c EmptyString]
           end
  end.

(** The verb [%d] of package fmt on an unsigned operand. *)
Definition fmt_d (n : Z) : string := NilZero.string_of_uint (N.to_uint (Z.to_N n)).

(** *** [fmt.Fprintf(w, format)] without operands

    The source passes computed strings as the format of [fmt.Fprintf]
    (lines 739, 761, 782), so what reaches the socket is the expansion of
    that format by package fmt, not the string itself.  [Sprintf0] follows
    [doPrintf] of package fmt for an empty operand list: text up to a ['%']
    is copied; after a ['%'] come flags, a width, a precision and the verb;
    ["%%"] writes one ['%']; any other verb [c] finds no operand and writes
    ["%!c(MISSING)"]; a format that ends inside a directive writes
    ["%!(NOVERB)"].  Directives with an argument index (['[']), a ['*'] width
    or precision, or a verb outside ASCII are not modelled: [None]. *)
Inductive fmtState :=
| Text                (* outside a directive *)
| Flags               (* after '%', reading flags *)
| Width (num : Z)     (* reading the digits of the width *)
| Dot                 (* just after the '.' of a precision *)
| Prec (num : Z).     (* reading the digits of the precision *)

Inductive fmtStep :=
| Emit (out : string) (st : fmtState)   (* write [out], go on in state [st] *)
| Halt (out : string)                   (* write [out], drop the rest of the format *)
| Unmodelled.

Definition noVerbString : string := "%!(NOVERB)".

Definition missingArg (verb : ascii) : string :=
  "%!" +:+ String verb "(MISSING)".

Definition fmt_verb (c : ascii) : fmtStep :=
  if Ascii.eqb c "["%char then Unmodelled
  else if 128 <=? Z_of_byte c then Unmodelled
  else if Ascii.eqb c "%"%char then Emit "%" Text
  else Emit (missingArg c) Text.

(** [parsenum] gives up on a number above a million and skips to the end of
    the format. *)
Definition fmt_digit (num : Z) (c : ascii) (k : Z -> fmtState) : fmtStep :=
  if 1000000 <? num then Halt noVerbString
  else Emit "" (k (num * 10 + (Z_of_byte c - 48))).

Definition fmt_after_width (c : ascii) : fmtStep :=
  if Ascii.eqb c "."%char then Emit "" Dot else fmt_verb c.

Definition fmt_at_width (c : ascii) : fmtStep :=
  if Ascii.eqb c "["%char then Unmodelled
  else if Ascii.eqb c "*"%char then Unmodelled
  else if is_digit c then fmt_digit 0 c Width
  else fmt_after_width c.

Definition is_flag (c : ascii) : bool :=
  Ascii.eqb c "#"%char || Ascii.eqb c "0"%char || Ascii.eqb c "+"%char ||
  Ascii.eqb c "-"%char || Ascii.eqb c " "%char.

Definition fmt_step (st : fmtState) (c : ascii) : fmtStep :=
  match st with
  | Text => if Ascii.eqb c "%"%char then Emit "" Flags else Emit (String c "") Text
  | Flags => if is_flag c then Emit "" Flags else fmt_at_width c
  | Width num => if is_digit c then fmt_digit num c Width else fmt_after_width c
  | Dot =>
      if Ascii.eqb c "["%char then Unmodelled
      else if Ascii.eqb c "*"%char then Unmodelled
      else if is_digit c then fmt_digit 0 c Prec
      else fmt_verb c
  | Prec num => if is_digit c then fmt_digit num c Prec else fmt_verb c
  end.

Fixpoint doPrintf (st : fmtState) (format : string) : option string :=
  match format with
  | EmptyString =>
      match st with
      | Text => Some ""
      | _ => Some noVerbString
      end
  | String c rest =>
      match fmt_step st c with
      | Emit out st' =>
          match doPrintf st' rest with
          | Some more => Some (out +:+ more)
          | None => None
          end
      | Halt out => Some out
      | Unmodelled => None
      end
  end.

Definition Sprintf0 (format : string) : option string := doPrintf Text format.

(** ** The reverse-lookup cache (source lines 89-130) *)

(** [time.Time] is a number of nanoseconds; [time.Hour] in that unit. *)
Definition time_Hour : Z := 3600 * 1000000000.

Record cacheEntry := CacheEntry {
  hostname : string;
  expires : Z
}.

Record reverseLookupCache := ReverseLookupCache {
  hostnames : gmap string cacheEntry;
  keys : list string;
  next : Z
}.

Definition NewReverseLookupCache : reverseLookupCache :=
  {| hostnames := ∅; keys := replicate (Z.to_nat 65536) ""; next := 0 |}.

(** [lookup] at the instant [now] (the value of [time.Now()]): the hostname,
    or [""] on a miss; an expired entry is deleted from the map (its key
    stays in the ring). *)
Definition lookup (now : Z) (ipv4 : string) (c : reverseLookupCache)
  : string * reverseLookupCache :=
  match hostnames c !! ipv4 with
  | Some hit =>
      if now <? expires hit then (hostname hit, c)
      else ("", {| hostnames := delete ipv4 (hostnames c); keys := keys c; next := next c |})
  | None => ("", c)
  end.

(** [store] at the instant [now].  [c.keys[c.next]] panics when the index
    is out of range: [None]. *)
Definition store (now : Z) (ipv4 hostname : string) (c : reverseLookupCache)
  : option reverseLookupCache :=
  if next c <? 0 then None
  else
    match keys c !! Z.to_nat (next c) with
    | None => None
    | Some old =>
        Some {| hostnames :=
                  <[ipv4 := {| hostname := hostname; expires := now + time_Hour |}]>
                    (delete old (hostnames c));
                keys := <[Z.to_nat (next c) := ipv4]> (keys c);
                next := Z.land (next c + 1) 65535 |}
    end.

(** Sequences of [store] and [lookup] on a new cache, each at its instant. *)
Inductive cacheOp :=
| OpStore (now : Z) (ipv4 hostname : string)
| OpLookup (now : Z) (ipv4 : string).

Definition cache_step (c : option reverseLookupCache) (op : cacheOp)
  : option reverseLookupCache :=
  match c with
  | None => None
  | Some c =>
      match op with
      | OpStore now ipv4 hostname => store now ipv4 hostname c
      | OpLookup now ipv4 => Some (snd (lookup now ipv4 c))
      end
  end.

Definition cache_run (ops : list cacheOp) : option reverseLookupCache :=
  fold_left cache_step ops (Some NewReverseLookupCache).

(** The keys stored by a sequence of operations, oldest first. *)
Definition stored (ops : list cacheOp) : list string :=
  omap (fun op => match op with
                  | OpStore _ ipv4 _ => Some ipv4
                  | OpLookup _ _ => None
                  end) ops.

(** The cache after the keys [ks] were stored: the ring has its 65,536
    slots, [next] is the number of stores modulo 65,536, the [j]-th stored
    key sits in slot [j mod 65536] as long as it is among the last 65,536,
    and every key of the map is in the ring. *)
Definition cache_inv (ks : list string) (c : reverseLookupCache) : Prop :=
  length (keys c) = Z.to_nat 65536 /\
  next c = Z.of_nat (length ks) mod 65536 /\
  (forall j : Z,
      0 <= j < Z.of_nat (length ks) ->
      Z.of_nat (length ks) - 65536 <= j ->
      keys c !! Z.to_nat (j mod 65536) = ks !! Z.to_nat j) /\
  (forall k, is_Some (hostnames c !! k) -> k ∈ keys c).

(** ** Connections *)

(** A [*net.TCPConn] that is not nil: the accepted client socket (or its
    re-wrapped file descriptor), or a socket opened by [net.DialTCP]. *)
Inductive tcpConn :=
| Client (fd : nat)
| Remote (fd : nat).

#[global] Instance tcpConn_eq_dec : EqDecision tcpConn.
Proof. solve_decision. Defined.

(** A value of interface type ([net.Conn], [io.ReadWriteCloser]): the nil
    interface, or a [*net.TCPConn], which may itself be a nil pointer.  A
    nil pointer stored in an interface is not the nil interface. *)
Inductive Conn :=
| nilConn
| tcp (p : option tcpConn).

Definition Conn_is_nil (c : Conn) : bool :=
  match c with nilConn => true | tcp _ => false end.

(** ** The connection pool (source lines 138-208) *)

Record clientPool := ClientPool {
  pool : gmap Z Conn;
  idCounter : Z
}.

Definition newClientPool : clientPool := {| pool := ∅; idCounter := 0 |}.

(** [atomic.AddUint64(&c.idCounter, 1)] wraps at 2^64. *)
Definition pool_add (conn : Conn) (c : clientPool) : Z * clientPool :=
  let id := (idCounter c + 1) mod 2 ^ 64 in
  (id, {| pool := <[id := conn]> (pool c); idCounter := id |}).

Definition pool_del (id : Z) (c : clientPool) : clientPool :=
  match pool c !! id with
  | Some _ => {| pool := delete id (pool c); idCounter := idCounter c |}
  | None => c
  end.

Definition pool_size (c : clientPool) : Z := Z.of_nat (size (pool c)).

(** Sequences of [add] and [del] on a new pool. *)
Inductive poolOp :=
| OpAdd (conn : Conn)
| OpDel (id : Z).

Definition pool_step (c : clientPool) (op : poolOp) : clientPool :=
  match op with
  | OpAdd conn => snd (pool_add conn c)
  | OpDel id => pool_del id c
  end.

Definition pool_run (ops : list poolOp) : clientPool :=
  fold_left pool_step ops newClientPool.

(** ** Configuration and environment *)

(** The globals set from the command line (source lines 70-87). *)
Record config := Config {
  gProxyServerSpec : string;
  gDirects : string;
  gProxyServers : list string;
  gAuthProxyServers : gmap string string;
  gClientRedirects : Z;
  gReverseLookups : Z;
  gSNIParsing : Z;
  gMaxConn : Z
}.

(** [net.IP] is a byte slice; [net.IPNet] an address and a mask. *)
Definition IP := list Z.

Record IPNet := { Net_IP : IP; Net_Mask : list Z }.

Inductive fileConnResult :=
| FileConnErr                (* net.FileConn failed *)
| FileConnOther              (* a connection that is not a *net.TCPConn *)
| FileConnTCP (fd : nat).

(** What the program calls and does not define: functions of the Go
    libraries, the SNI parser of the repository, the kernel and the network.
    Each is taken as given. *)
Record environment := Environment {
  net_ParseIP : string -> IP;
  net_ParseCIDR : string -> option IPNet;
  IP_Equal : IP -> IP -> bool;
  IPNet_Contains : IPNet -> IP -> bool;
  net_SplitHostPort : string -> option (string * string);
  net_ResolveIPAddr : string -> option IP;
  strconv_Atoi : string -> option Z;
  net_LookupAddr : string -> option (list string);
  (** [net.DialTCP]: the descriptor of the new socket, or an error. *)
  net_DialTCP : IP -> Z -> option nat;
  (** [c.RemoteAddr()], [nil] rendered as [None]. *)
  RemoteAddr : tcpConn -> option string;
  (** [bufio.NewReader(c).ReadString('\n')]: the line, or an error. *)
  ReadString : tcpConn -> option string;
  (** the [Op] of the [*net.OpError] that [io.Copy(dst, src)] ends with, if
      it ends with one. *)
  io_Copy : tcpConn -> tcpConn -> option string;
  (** [extractSNI] on the client's bytes at the n-th upstream tried: the
      server name and the bytes the tee reader saw. *)
  extractSNI : nat -> string * string;
  conn_File : tcpConn -> bool;
  GetsockoptIPv6Mreq : tcpConn -> option (list Z);
  net_FileConn : tcpConn -> fileConnResult;
  (** the order in which [gc] meets the ids: the iteration order of the map
      followed by [rand.Shuffle]. *)
  rand_Shuffle : list Z -> list Z;
  time_Now : Z
}.

(** ** The state of the process and its effects *)

Inductive counter :=
| DirectConnections | ProxiedConnections
| ProxyServerReadErr | ProxyServerWriteErr
| DirectServerReadErr | DirectServerWriteErr
| Proxy200Responses | Proxy300Responses | Proxy400Responses
| ProxyNon200Responses | ProxyNoConnectResponses.

Inductive event :=
| Fprintf (w : tcpConn) (format : string)     (* fmt.Fprintf(w, format) *)
| Write (w : tcpConn) (data : string)         (* w.Write(data) *)
| IoCopy (dst src : tcpConn)                  (* io.Copy(dst, src) has returned *)
| Close (c : tcpConn)                         (* c.Close() *)
| Go (dst src : Conn) (dstname srcname : string) (cid : Z)   (* go copy(...) *)
| Incr (c : counter).

(** The bytes an event puts on a socket. *)
Definition wire (e : event) : option (tcpConn * string) :=
  match e with
  | Fprintf w format =>
      match Sprintf0 format with
      | Some out => Some (w, out)
      | None => None
      end
  | Write w data => Some (w, data)
  | _ => None
  end.

(** The event reads from or writes to the connection [c]. *)
Definition touches (c : tcpConn) (e : event) : bool :=
  match e with
  | Fprintf w _ | Write w _ => bool_decide (w = c)
  | IoCopy dst src => bool_decide (dst = c) || bool_decide (src = c)
  | _ => false
  end.

Definition is_Close (e : event) : bool :=
  match e with
  | Close _ => true
  | _ => false
  end.

Record world := World {
  cp : clientPool;
  gReverseLookupCache : reverseLookupCache;
  trace : list event
}.

(** Computations on the world; [None] is a run-time panic. *)
Definition M (A : Type) : Type := world -> option (A * world).

#[global] Instance M_ret : MRet M := fun A a w => Some (a, w).

#[global] Instance M_bind : MBind M := fun A B f m w =>
  match m w with
  | Some (a, w') => f a w'
  | None => None
  end.

Definition panic {A : Type} : M A := fun _ => None.

Definition emit (e : event) : M unit := fun w =>
  Some (tt, {| cp := cp w; gReverseLookupCache := gReverseLookupCache w;
               trace := trace w ++ [e] |}).

Definition with_pool {A : Type} (f : clientPool -> A * clientPool) : M A := fun w =>
  let '(a, c) := f (cp w) in
  Some (a, {| cp := c; gReverseLookupCache := gReverseLookupCache w; trace := trace w |}).

Definition cp_add (conn : Conn) : M Z := with_pool (pool_add conn).

Definition cp_del (id : Z) : M unit := with_pool (fun c => (tt, pool_del id c)).

(** [delete(c.pool, id)]. *)
Definition cp_delete (id : Z) : M unit :=
  with_pool (fun c => (tt, {| pool := delete id (pool c); idCounter := idCounter c |})).

(** A method call through an interface value: on the nil interface and on a
    nil [*net.TCPConn] (whose methods are those of the embedded [conn],
    reached by dereferencing the pointer) it panics. *)
Definition deref (c : Conn) : M tcpConn :=
  match c with
  | tcp (Some t) => mret t
  | _ => panic
  end.

Definition conn_Close (c : Conn) : M unit := t ← deref c; emit (Close t).

Inductive control := Next | Break | Return.

Record loopVars := LoopVars {
  proxyConn : Conn;
  rid : Z;
  host : string;
  handshakeBuf : string
}.

Definition CRLF : string := String "013"%char (String "010"%char EmptyString).

Definition ERR_NO_PROXIES : string :=
  "HTTP/1.0 503 Service Unavailable" +:+ CRLF +:+
  "Server: go-any-proxy" +:+ CRLF +:+
  "X-AnyProxy-Error: ERR_NO_PROXIES" +:+ CRLF +:+ CRLF.

(** [fmt.Sprintf("CONNECT %s:%d HTTP/1.0%s\r\n%s\r\n", ...)] (line 737). *)
Definition connectString (connectHostname : string) (port : Z)
    (authString headerXFF : string) : string :=
  "CONNECT " +:+ connectHostname +:+ ":" +:+ fmt_d port +:+ " HTTP/1.0" +:+
  authString +:+ CRLF +:+ headerXFF +:+ CRLF.

(** ** The original destination *)

(** The port and the address in the 16 bytes of SO_ORIGINAL_DST (source
    lines 597-601); an index outside the array and a panic of [itod] are
    [None]. *)
Definition decodeOriginalDst (Multiaddr : list Z) : option (string * Z) :=
  b2 ← Multiaddr !! 2%nat;
  b3 ← Multiaddr !! 3%nat;
  b4 ← Multiaddr !! 4%nat;
  b5 ← Multiaddr !! 5%nat;
  b6 ← Multiaddr !! 6%nat;
  b7 ← Multiaddr !! 7%nat;
  s4 ← itod b4;
  s5 ← itod b5;
  s6 ← itod b6;
  s7 ← itod b7;
  Some (s4 +:+ "." +:+ s5 +:+ "." +:+ s6 +:+ "." +:+ s7,
        (Z.shiftl b2 8 mod 2 ^ 16 + b3) mod 2 ^ 16).

(** ** Directors (source lines 299-353) *)

Definition directorFunc := IP -> bool.

(** The two closures [buildDirectors] makes. *)
Inductive rule :=
| Exact (directorIp : IP)
| Cidr (directorIpNet : IPNet).

Section Program.

Variable cfg : config.
Variable env : environment.

Definition rule_func (r : rule) : directorFunc :=
  match r with
  | Exact directorIp => fun testIp => IP_Equal env testIp directorIp
  | Cidr directorIpNet => fun testIp => IPNet_Contains env directorIpNet testIp
  end.

(** One entry of the comma-separated list: a CIDR block when it has a
    ['/'] (a parse error panics), one address otherwise. *)
Definition parse_rule (directorCidr : string) : option rule :=
  if Contains directorCidr "/" then
    match net_ParseCIDR env directorCidr with
    | Some directorIpNet => Some (Cidr directorIpNet)
    | None => None
    end
  else Some (Exact (net_ParseIP env directorCidr)).

Definition parse_rules (gDirects : string) : option (list rule) :=
  mapM (M := option) parse_rule (Split_comma gDirects).

Definition buildDirectors (gDirects : string) : option (list directorFunc) :=
  match parse_rules gDirects with
  | Some rules => Some (map rule_func rules)
  | None => None
  end.

Fixpoint director_loop (idx : nat) (directors : list directorFunc) (ipaddr : IP)
  : bool * nat :=
  match directors with
  | [] => (false, 0%nat)
  | dfunc :: rest =>
      if dfunc ipaddr then (true, idx) else director_loop (S idx) rest ipaddr
  end.

Definition getDirector (directors : list directorFunc) (ipaddr : IP) : bool * nat :=
  director_loop 0 directors ipaddr.

(** ** [gc] (source lines 181-208) *)

(** The loop [for i := 0; i < d; i++] over [ids[i]]: [ids] is what is left of
    the slice from index [i] on, [n] the iterations to go.  Running past the
    end of the slice panics. *)
Fixpoint gc_loop (ids : list Z) (n : nat) : M unit :=
  match n with
  | O => mret tt
  | S n' =>
      match ids with
      | [] => panic
      | id :: ids' =>
          fun w =>
            let conn := default nilConn (pool (cp w) !! id) in
            ((if Conn_is_nil conn then mret tt else conn_Close conn);;
             cp_delete id;;
             gc_loop ids' n') w
      end
  end.

Definition gc : M unit := fun w =>
  if pool_size (cp w) <? gMaxConn cfg then Some (tt, w)
  else
    let ids := rand_Shuffle env (map fst (map_to_list (pool (cp w)))) in
    let d := pool_size (cp w) - (gMaxConn cfg - 512) in
    gc_loop ids (Z.to_nat d) w.

(** ** [copy] (source lines 503-539) *)

Definition copy (dst src : Conn) (dstname srcname : string) (cid : Z) : M unit :=
  if Conn_is_nil dst then mret tt
  else if Conn_is_nil src then mret tt
  else
    d ← deref dst;
    s ← deref src;
    emit (IoCopy d s);;
    match io_Copy env d s with
    | Some op =>
        (if String.eqb op "read" then
           (if String.eqb srcname "proxyserver" then emit (Incr ProxyServerReadErr) else mret tt);;
           (if String.eqb srcname "directserver" then emit (Incr DirectServerReadErr) else mret tt)
         else mret tt);;
        (if String.eqb op "write" then
           (if String.eqb srcname "proxyserver" then emit (Incr ProxyServerWriteErr) else mret tt);;
           (if String.eqb srcname "directserver" then emit (Incr DirectServerWriteErr) else mret tt)
         else mret tt)
    | None => mret tt
    end;;
    cp_del cid;;
    emit (Close d);;
    emit (Close s).

(** ** [getOriginalDst] (source lines 541-604)

    The results are [(ipv4, port, newTCPConn, err)], [err] as a boolean. *)
Definition getOriginalDst (clientConn : option tcpConn)
  : M (string * Z * option tcpConn * bool) :=
  match clientConn with
  | None => mret ("", 0, None, true)
  | Some c =>
      match RemoteAddr env c with
      | None => mret ("", 0, None, true)
      | Some _ =>
          if negb (conn_File env c) then mret ("", 0, None, true)
          else
            emit (Close c);;
            match GetsockoptIPv6Mreq env c with
            | None => mret ("", 0, None, true)
            | Some Multiaddr =>
                match net_FileConn env c with
                | FileConnErr => mret ("", 0, None, true)
                | FileConnOther => mret ("", 0, None, true)
                | FileConnTCP fd =>
                    match decodeOriginalDst Multiaddr with
                    | Some (ipv4, port) => mret (ipv4, port, Some (Client fd), false)
                    | None => panic
                    end
                end
            end
      end
  end.

(** ** [dial] (source lines 606-635)

    The results are [(conn, rid, err)]. *)
Definition dial (spec : string) : M (option tcpConn * Z * bool) :=
  match net_SplitHostPort env spec with
  | None => mret (None, 0, true)
  | Some (host, port) =>
      match net_ResolveIPAddr env host with
      | None => mret (None, 0, true)
      | Some remoteAddr =>
          match strconv_Atoi env port with
          | None => mret (None, 0, true)
          | Some portInt =>
              gc;;
              let '(conn, err) :=
                match net_DialTCP env remoteAddr portInt with
                | Some fd => (Some (Remote fd), false)
                | None => (None, true)
                end in
              rid ← cp_add (tcp conn);
              mret (conn, rid, err)
          end
      end
  end.

(** The address and port [dial] connects to, when the spec gets that far
    (lines 607-622). *)
Definition dial_target (spec : string) : option (IP * Z) :=
  match net_SplitHostPort env spec with
  | None => None
  | Some (host, port) =>
      match net_ResolveIPAddr env host with
      | None => None
      | Some remoteAddr =>
          match strconv_Atoi env port with
          | None => None
          | Some portInt => Some (remoteAddr, portInt)
          end
      end
  end.

(** The reading of "every call to [dial] adds an entry to the pool and
    returns the allocated id": the call returns some [(conn, rid, err)] and
    the pool then maps [rid] to [conn]. *)
Definition dial_always_registers (spec : string) (w : world) : Prop :=
  exists conn rid err w',
    dial spec w = Some ((conn, rid, err), w') /\
    pool (cp w') !! rid = Some (tcp conn).

(** ** [handleDirectConnection] (source lines 637-672) *)

Definition handleDirectConnection (clientConn : option tcpConn) (ipv4 : string)
    (port : Z) (cid : Z) : M unit :=
  match clientConn with
  | None => mret tt
  | Some c =>
      match RemoteAddr env c with
      | None => mret tt
      | Some _ =>
          let ipport := ipv4 +:+ ":" +:+ fmt_d port in
          '(directConn, rid, err) ← dial ipport;
          if err : bool then mret tt
          else
            emit (Incr DirectConnections);;
            emit (Go (tcp clientConn) (tcp directConn) "client" "directserver" cid);;
            emit (Go (tcp directConn) (tcp clientConn) "directserver" "client" rid)
      end
  end.

(** ** [handleProxyConnection] (source lines 674-789) *)

Definition authString (proxySpec : string) : string :=
  match gAuthProxyServers cfg !! proxySpec with
  | Some val => CRLF +:+ "Proxy-Authorization: Basic " +:+ val
  | None => ""
  end.

(** The test of line 758; [&&] binds tighter than [||]. *)
Definition is_redirect (status : string) : bool :=
  Contains status "301" || (Contains status "302" && (gClientRedirects cfg =? 1)).

(** Lines 751-774: what the status line of the upstream leads to. *)
Definition handleStatus (clientConn : tcpConn) (cid : Z) (v : loopVars)
    (status : string) : M (control * loopVars) :=
  if Contains status "400" then
    emit (Incr Proxy400Responses);;
    copy (tcp (Some clientConn)) (proxyConn v) "client" "proxyserver" cid;;
    mret (Return, v)
  else if is_redirect status then
    emit (Incr Proxy300Responses);;
    emit (Fprintf clientConn status);;
    copy (tcp (Some clientConn)) (proxyConn v) "client" "proxyserver" cid;;
    mret (Return, v)
  else if negb (Contains status "200") then
    emit (Incr ProxyNon200Responses);; mret (Next, v)
  else
    emit (Incr Proxy200Responses);; mret (Break, v).

(** Lines 725-732: the host name of the CONNECT request and the loop
    variables after the SNI peek of the [idx]-th turn. *)
Definition sniPeek (ipv4 : string) (idx : nat) (v : loopVars) : string * loopVars :=
  if gSNIParsing cfg =? 1 then
    let '(h, seen) := extractSNI env idx in
    (if (String.length h =? 0)%nat then ipv4 else h,
     {| proxyConn := proxyConn v; rid := rid v; host := h;
        handshakeBuf := handshakeBuf v +:+ seen |})
  else (ipv4, v).

(** One turn of the loop over [gProxyServers], the [idx]-th. *)
Definition tryProxy (clientConn : tcpConn) (ipv4 : string) (port : Z) (cid : Z)
    (headerXFF : string) (idx : nat) (proxySpec : string) (v : loopVars)
  : M (control * loopVars) :=
  '(conn, rid', err) ← dial proxySpec;
  let v := {| proxyConn := tcp conn; rid := rid'; host := host v;
              handshakeBuf := handshakeBuf v |} in
  if err : bool then mret (Next, v)
  else
    pc ← deref (proxyConn v);
    let '(connectHostname, v) := sniPeek ipv4 idx v in
    emit (Fprintf pc (connectString connectHostname port (authString proxySpec) headerXFF));;
    (if gSNIParsing cfg =? 1 then emit (Write pc (handshakeBuf v)) else mret tt);;
    match ReadString env pc with
    | None => emit (Incr ProxyNoConnectResponses);; mret (Next, v)
    | Some status => handleStatus clientConn cid v status
    end.

(** The loop: [Next] at the end means it ran off the list ([success] is
    still false), [Break] that it left with [success = true], [Return] that
    the function returned inside it. *)
Fixpoint proxy_loop (clientConn : tcpConn) (ipv4 : string) (port : Z) (cid : Z)
    (headerXFF : string) (idx : nat) (proxies : list string) (v : loopVars)
  : M (control * loopVars) :=
  match proxies with
  | [] => mret (Next, v)
  | proxySpec :: rest =>
      '(c, v') ← tryProxy clientConn ipv4 port cid headerXFF idx proxySpec v;
      match c with
      | Next => proxy_loop clientConn ipv4 port cid headerXFF (S idx) rest v'
      | _ => mret (c, v')
      end
  end.

(** Lines 705-716: the CONNECT target after the reverse lookup. *)
Definition reverseLookup (ipv4 : string) : M string := fun w =>
  if gReverseLookups cfg =? 1 then
    let '(hostname, c) := lookup (time_Now env) ipv4 (gReverseLookupCache w) in
    let w := {| cp := cp w; gReverseLookupCache := c; trace := trace w |} in
    if negb (String.eqb hostname "") then Some (hostname, w)
    else
      match net_LookupAddr env ipv4 with
      | Some (name :: _) =>
          match store (time_Now env) ipv4 name c with
          | Some c' =>
              Some (name, {| cp := cp w; gReverseLookupCache := c'; trace := trace w |})
          | None => None
          end
      | _ => Some (ipv4, w)
      end
  else Some (ipv4, w).

(** Lines 700-703: [host] and [headerXFF] from the client's address. *)
Definition xff_host (remoteAddr : string) : string :=
  match net_SplitHostPort env remoteAddr with
  | Some (host, _) => host
  | None => ""
  end.

Definition headerXFF (remoteAddr : string) : string :=
  match net_SplitHostPort env remoteAddr with
  | Some (host, _) => "X-Forwarded-For: " +:+ host +:+ CRLF
  | None => ""
  end.

(** Lines 705-775: the reverse lookup and the walk over the upstreams. *)
Definition proxy_walk (clientConn : tcpConn) (remoteAddr : string) (ipv4 : string)
    (port : Z) (cid : Z) : M (control * loopVars) :=
  ipv4 ← reverseLookup ipv4;
  proxy_loop clientConn ipv4 port cid (headerXFF remoteAddr) 0 (gProxyServers cfg)
    {| proxyConn := nilConn; rid := 0; host := xff_host remoteAddr;
       handshakeBuf := "" |}.

Definition handleProxyConnection (clientConn : option tcpConn) (ipv4 : string)
    (port : Z) (cid : Z) : M unit :=
  match clientConn with
  | None => mret tt
  | Some c =>
      match RemoteAddr env c with
      | None => mret tt
      | Some remoteAddr =>
          '(ctl, v) ← proxy_walk c (remoteAddr : string) ipv4 port cid;
          match ctl with
          | Return => mret tt
          | _ =>
              if Conn_is_nil (proxyConn v) then mret tt
              else
                match ctl with
                | Break =>
                    emit (Incr ProxiedConnections);;
                    emit (Go (tcp clientConn) (proxyConn v) "client" "proxyserver" cid);;
                    emit (Go (proxyConn v) (tcp clientConn) "proxyserver" "client" (rid v))
                | _ =>
                    emit (Fprintf c ERR_NO_PROXIES);;
                    emit (Close c)
                end
          end
      end
  end.

(** ** [handleConnection] (source lines 791-821) *)

Definition handleConnection (clientConn : option tcpConn) (cid : Z) : M unit :=
  match clientConn with
  | None => mret tt
  | Some c =>
      match RemoteAddr env c with
      | None => mret tt
      | Some _ =>
          '(ipv4, port, clientConn, err) ← getOriginalDst clientConn;
          if err : bool then mret tt
          else if String.eqb (gProxyServerSpec cfg) "" then
            handleDirectConnection clientConn ipv4 port cid
          else
            match buildDirectors (gDirects cfg) with
            | None => panic
            | Some dirFuncs =>
                let ip := net_ParseIP env ipv4 in
                if fst (getDirector dirFuncs ip) then
                  handleDirectConnection clientConn ipv4 port cid
                else handleProxyConnection clientConn ipv4 port cid
            end
      end
  end.

(** One turn of the accept loop of [main] (source lines 451-464) with a
    connection accepted on descriptor [fd], its handler run in line. *)
Definition serve (fd : nat) : M Z :=
  gc;;
  cid ← cp_add (tcp (Some (Client fd)));
  handleConnection (Some (Client fd)) cid;;
  mret cid.

End Program.

(** What is left of a run: its result, the entries of the pool, the events,
    and the bytes the events put on the sockets. *)
Definition outcome {A : Type} (r : option (A * world))
  : option (A * list (Z * Conn) * list event * list (tcpConn * string)) :=
  match r with
  | Some (a, w) => Some (a, map_to_list (pool (cp w)), trace w, omap wire (trace w))
  | None => None
  end.

(** No ['%'] in the string. *)
Definition plain (s : string) : bool :=
  forallb (fun c => negb (Ascii.eqb c "%"%char)) (list_ascii_of_string s).

(** [count] stores of distinct keys, ["0"], ["1"], ... in this order, the
    [i]-th at the instant [i]. *)
Definition sample_stores (count : positive) : list cacheOp :=
  snd (Pos.iter
         (fun '(i, ops) => (i - 1, OpStore i (fmt_d i) "host.example" :: ops))
         (Z.pos count - 1, []) count).

(** A process that has just created its pool and its cache. *)
Definition initial_world : world :=
  {| cp := newClientPool; gReverseLookupCache := NewReverseLookupCache; trace := [] |}.

(** ** A sample deployment, for closed examples

    One upstream, ["10.0.0.9:3128"]; a client at 198.51.100.7 redirected on
    its way to 206.190.36.45:8080 (the bytes are those of the comment at
    source line 573).  What the upstream does is left open: whether the TCP
    connect succeeds, the status line it answers, and what the SNI parser
    finds. *)
Definition sample_cfg (redirects sni : Z) : config :=
  {| gProxyServerSpec := "10.0.0.9:3128";
     gDirects := "";
     gProxyServers := ["10.0.0.9:3128"];
     gAuthProxyServers := ∅;
     gClientRedirects := redirects;
     gReverseLookups := 0;
     gSNIParsing := sni;
     gMaxConn := 4096 |}.

Definition sample_Multiaddr : list Z :=
  [2; 0; 31; 144; 206; 190; 36; 45; 0; 0; 0; 0; 0; 0; 0; 0].

Definition sample_env (connect : option nat) (status : option string)
    (sni : string * string) : environment :=
  {| net_ParseIP := fun s =>
       if String.eqb s "206.190.36.45" then [206; 190; 36; 45]
       else if String.eqb s "10.1.1.1" then [10; 1; 1; 1]
       else [];
     net_ParseCIDR := fun s =>
       if String.eqb s "10.0.0.0/8"
       then Some {| Net_IP := [10; 0; 0; 0]; Net_Mask := [255; 0; 0; 0] |}
       else None;
     IP_Equal := fun a b => bool_decide (a = b);
     IPNet_Contains := fun n ip =>
       bool_decide (zip_with Z.land (Net_IP n) (Net_Mask n) =
                    zip_with Z.land ip (Net_Mask n));
     net_SplitHostPort := fun s =>
       if String.eqb s "10.0.0.9:3128" then Some ("10.0.0.9", "3128")
       else if String.eqb s "198.51.100.7:40000" then Some ("198.51.100.7", "40000")
       else if String.eqb s "unknown.invalid:80" then Some ("unknown.invalid", "80")
       else None;
     net_ResolveIPAddr := fun h =>
       if String.eqb h "10.0.0.9" then Some [10; 0; 0; 9] else None;
     strconv_Atoi := fun p => if String.eqb p "3128" then Some 3128 else None;
     net_LookupAddr := fun _ => None;
     net_DialTCP := fun _ _ => connect;
     RemoteAddr := fun c =>
       match c with
       | Client _ => Some "198.51.100.7:40000"
       | Remote _ => Some "10.0.0.9:3128"
       end;
     ReadString := fun _ => status;
     io_Copy := fun _ _ => None;
     extractSNI := fun _ => sni;
     conn_File := fun _ => true;
     GetsockoptIPv6Mreq := fun _ => Some sample_Multiaddr;
     net_FileConn := fun _ => FileConnTCP 1;
     rand_Shuffle := fun ids => ids;
     time_Now := 0 |}.

(** ** The copiers, run to their end

    [go copy(...)] only starts a goroutine.  [run_go] is that goroutine run
    to its end, [run_all] several of them one after the other. *)
Definition run_go (env : environment) (e : event) : M unit :=
  match e with
  | Go dst src dstname srcname cid => copy env dst src dstname srcname cid
  | _ => mret tt
  end.

Fixpoint run_all (env : environment) (es : list event) : M unit :=
  match es with
  | [] => mret tt
  | e :: es' => run_go env e;; run_all env es'
  end.

(** The [Close] events of the pool entries with the ids [ids], in their
    order: one for each id whose entry holds a connection, none for an id
    that is absent or whose entry is the nil interface. *)
Definition closes_of (p : gmap Z Conn) (ids : list Z) : list event :=
  omap (fun id => match p !! id with
                  | Some (tcp (Some t)) => Some (Close t)
                  | _ => None
                  end) ids.

(** The number of [add]s in a sequence of pool operations. *)
Fixpoint count_adds (ops : list poolOp) : nat :=
  match ops with
  | [] => 0%nat
  | OpAdd _ :: ops' => S (count_adds ops')
  | OpDel _ :: ops' => count_adds ops'
  end.

(** ** Start-up: [checkProxies] (source lines 467-501) and [main] (408-449) *)

(** [strings.Split(s, sep)] for a separator of one byte. *)
Fixpoint Split_char (sep : ascii) (s : string) : list string :=
  match s with
  | EmptyString => [EmptyString]
  | String c s' =>
      if Ascii.eqb c sep then EmptyString :: Split_char sep s'
      else match Split_char sep s' with
           | piece :: pieces => String c piece :: pieces
           | [] => [String c EmptyString]
           end
  end.

(** The upstream a spec names once its credentials are taken off: the
    second piece of a spec with an ['@'], the spec itself otherwise. *)
Definition specWithoutAuth (proxySpec : string) : string :=
  if Contains proxySpec "@" then default "" (Split_char "@"%char proxySpec !! 1%nat)
  else proxySpec.

(** [dial] as [checkProxies] calls it.  [main] calls [checkProxies] at line
    431 and creates the pool at line 449, so [cp] is still nil: a spec that
    gets as far as [cp.gc()] (line 626) dereferences it.  [Some tt] is the
    return with an error of lines 607-621, [None] the panic; [dial] has no
    other way out here. *)
Definition dial_before_pool (env : environment) (spec : string) : option unit :=
  match net_SplitHostPort env spec with
  | None => Some tt
  | Some (host, port) =>
      match net_ResolveIPAddr env host with
      | None => Some tt
      | Some _ =>
          match strconv_Atoi env port with
          | None => Some tt
          | Some _ => None
          end
      end
  end.

(** The slice [gProxyServers] is its backing array, which every slice of
    the function shares, and its length; [gAuthProxyServers] is a map. *)
Record startupVars := StartupVars {
  servers_array : list string;
  servers_len : nat;
  authServers : gmap string string
}.

(** Lines 471-478: a spec with credentials.  [gProxyServers[i] = proxySpec]
    panics when [i] is not below the current length. *)
Definition stripAuth (base64 : string -> string) (i : nat) (proxySpec : string)
    (st : startupVars) : option (string * startupVars) :=
  if Contains proxySpec "@" then
    let authSplit := Split_char "@"%char proxySpec in
    match authSplit !! 0%nat, authSplit !! 1%nat with
    | Some credentials, Some spec =>
        if (i <? servers_len st)%nat then
          Some (spec,
                {| servers_array := <[i := spec]> (servers_array st);
                   servers_len := servers_len st;
                   authServers := <[spec := base64 credentials]> (authServers st) |})
        else None
    | _, _ => None
    end
  else Some (proxySpec, st).

(** Lines 485-487: [a := gProxyServers[:i]], [b := gProxyServers[i+1:]] and
    [gProxyServers = append(a, b...)].  The slice expressions panic when
    their bounds are out of range; [append] finds room in the array of [a]
    and moves the elements of [b] one place down, in place. *)
Definition removeServer (i : nat) (st : startupVars) : option startupVars :=
  if (length (servers_array st) <? i)%nat then None
  else if (servers_len st <? i + 1)%nat then None
  else
    Some {| servers_array :=
              take i (servers_array st) ++
              drop (i + 1) (take (servers_len st) (servers_array st)) ++
              drop (servers_len st - 1) (servers_array st);
            servers_len := (servers_len st - 1)%nat;
            authServers := authServers st |}.

(** One turn of the loop, the [i]-th; [proxySpec] is read from the array at
    that moment. *)
Definition checkProxy (env : environment) (base64 : string -> string)
    (gSkipCheckUpstreamsReachable : Z) (i : nat) (st : startupVars)
  : option startupVars :=
  match servers_array st !! i with
  | None => None
  | Some proxySpec =>
      match stripAuth base64 i proxySpec st with
      | None => None
      | Some (proxySpec, st) =>
          if gSkipCheckUpstreamsReachable =? 1 then Some st
          else
            match dial_before_pool env proxySpec with
            | None => None
            | Some _ => removeServer i st
            end
      end
  end.

(** [for i, proxySpec := range gProxyServers]: the range is over the slice
    as it was when the loop began, [n] turns from index [i] on. *)
Fixpoint checkProxies_loop (env : environment) (base64 : string -> string)
    (gSkipCheckUpstreamsReachable : Z) (n i : nat) (st : startupVars)
  : option startupVars :=
  match n with
  | O => Some st
  | S n' =>
      match checkProxy env base64 gSkipCheckUpstreamsReachable i st with
      | None => None
      | Some st' =>
          checkProxies_loop env base64 gSkipCheckUpstreamsReachable n' (S i) st'
      end
  end.

(** How a start-up step ends: it goes on with a value, the process exits, or
    it panics. *)
Inductive startup (A : Type) :=
| Started (a : A)
| Exited
| Panicked.

Arguments Started {A} a.
Arguments Exited {A}.
Arguments Panicked {A}.

Definition checkProxies (env : environment) (base64 : string -> string)
    (gSkipCheckUpstreamsReachable : Z) (gProxyServerSpec : string)
  : startup (list string * gmap string string) :=
  let pieces := Split_comma gProxyServerSpec in
  match checkProxies_loop env base64 gSkipCheckUpstreamsReachable (length pieces) 0
          {| servers_array := pieces; servers_len := length pieces; authServers := ∅ |} with
  | None => Panicked
  | Some st =>
      if (servers_len st =? 0)%nat then Exited
      else Started (take (servers_len st) (servers_array st), authServers st)
  end.

(** [main] up to its accept loop.  The set-up of logging, profiling and
    statistics is left out (each can only end the process); [listen] says
    whether the listening socket could be opened.  The configuration it
    serves with has the upstream list and the credentials [checkProxies]
    made of the flags.  The source creates the cache only when
    [gReverseLookups] is 1 (line 423), and reads it only then (line 705). *)
Definition main_startup (env : environment) (base64 : string -> string)
    (listen : string -> bool) (gListenAddrPort : string)
    (gSkipCheckUpstreamsReachable : Z) (cfg : config) : startup (config * world) :=
  if String.eqb gListenAddrPort "" then Exited
  else
    match buildDirectors env (gDirects cfg) with
    | None => Panicked
    | Some _ =>
        match (if String.eqb (gProxyServerSpec cfg) "" then Started ([], ∅)
               else checkProxies env base64 gSkipCheckUpstreamsReachable
                      (gProxyServerSpec cfg)) with
        | Panicked => Panicked
        | Exited => Exited
        | Started (servers, auth) =>
            if negb (listen gListenAddrPort) then Panicked
            else if gMaxConn cfg <? 1024 then Exited
            else
              Started ({| gProxyServerSpec := gProxyServerSpec cfg;
                          gDirects := gDirects cfg;
                          gProxyServers := servers;
                          gAuthProxyServers := auth;
                          gClientRedirects := gClientRedirects cfg;
                          gReverseLookups := gReverseLookups cfg;
                          gSNIParsing := gSNIParsing cfg;
                          gMaxConn := gMaxConn cfg |},
                       initial_world)
        end
    end.

(** * Properties *)

(** ** Substrings *)

Lemma append_cons (c : ascii) (a b : string) :
  String c a +:+ b = String c (a +:+ b).
Proof. reflexivity. Qed.

Lemma prefix_app (p s : string) :
  String.prefix p s = true <-> exists b, s = p +:+ b.
Proof.
  revert s. induction p as [|c p IH]; intros s.
  - split; [intros _; exists s; reflexivity | intros _; destruct s; reflexivity].
  - destruct s as [|d s]; simpl.
    + split; [discriminate | intros [b Hb]; discriminate].
    + destruct (ascii_dec c d) as [->|Hne].
      * rewrite IH. split; intros [b Hb]; exists b.
        -- rewrite append_cons. congruence.
        -- rewrite append_cons in Hb. congruence.
      * split; [discriminate|]. intros [b Hb]. rewrite append_cons in Hb. congruence.
Qed.

(** [Contains s substr] holds exactly when [substr] occurs in [s]. *)
Lemma Contains_occurs (s substr : string) :
  Contains s substr = true <-> exists a b, s = a +:+ substr +:+ b.
Proof.
  induction s as [|c s IH].
  - change (Contains "" substr) with (String.prefix substr "" || false).
    rewrite orb_false_r, prefix_app. split.
    + intros [b Hb]. exists "", b. exact Hb.
    + intros (a & b & Hab). destruct a; [exists b; exact Hab | discriminate].
  - change (Contains (String c s) substr)
      with (String.prefix substr (String c s) || Contains s substr).
    rewrite orb_true_iff, prefix_app, IH. split.
    + intros [[b Hb] | (a & b & Hab)].
      * exists "", b. exact Hb.
      * exists (String c a), b. rewrite append_cons. congruence.
    + intros (a & b & Hab). destruct a as [|d a].
      * left. exists b. exact Hab.
      * right. exists a, b. rewrite append_cons in Hab. congruence.
Qed.

(** ** Decimal rendering *)

Lemma dec_value_snoc (ds : list ascii) (c : ascii) :
  dec_value (ds ++ [c]) = 10 * dec_value ds + (Z_of_byte c - 48).
Proof. unfold dec_value. rewrite fold_left_app. reflexivity. Qed.

Lemma Z_of_byte_of_Z (z : Z) : 0 <= z < 256 -> Z_of_byte (byte_of_Z z) = z.
Proof.
  intros Hz. unfold Z_of_byte, byte_of_Z.
  rewrite N_ascii_embedding.
  - rewrite Z2N.id; rewrite Z.mod_small; lia.
  - rewrite Z.mod_small by lia. lia.
Qed.

Lemma digit_byte (d : Z) :
  0 <= d < 10 ->
  is_digit (byte_of_Z (d + 48)) = true /\ Z_of_byte (byte_of_Z (d + 48)) - 48 = d.
Proof.
  intros Hd. unfold is_digit. rewrite Z_of_byte_of_Z by lia. split; lia.
Qed.

Lemma digit_byte_nonzero (d : Z) :
  0 < d < 10 -> byte_of_Z (d + 48) <> "0"%char.
Proof.
  intros Hd Heq.
  assert (H : Z_of_byte (byte_of_Z (d + 48)) = Z_of_byte "0"%char) by (rewrite Heq; reflexivity).
  rewrite Z_of_byte_of_Z in H by lia. change (Z_of_byte "0"%char) with 48 in H. lia.
Qed.

(** What the loop of [itod] leaves in the buffer: the digits of [i], just
    before what was there from [bp] on. *)
Lemma itod_loop_digits (bp : nat) :
  forall (i : Z) (b : list ascii),
    0 <= i < 10 ^ Z.of_nat bp ->
    (bp <= length b)%nat ->
    exists bp' b' ds,
      itod_loop bp i b = Some (bp', b') /\
      drop bp' b' = ds ++ drop bp b /\
      forallb is_digit ds = true /\
      dec_value ds = i /\
      (i = 0 -> ds = []) /\
      (0 < i -> exists c rest, ds = c :: rest /\ c <> "0"%char).
Proof.
  induction bp as [|bp IH]; intros i b Hi Hlen.
  - assert (i = 0) by (change (10 ^ Z.of_nat 0) with 1 in Hi; lia). subst i.
    exists O, b, []. simpl. repeat split; try reflexivity. intros; lia.
  - simpl itod_loop. destruct (0 <? i) eqn:Hpos.
    + apply Z.ltb_lt in Hpos.
      assert (Hq : 0 <= i / 10 < 10 ^ Z.of_nat bp).
      { rewrite Nat2Z.inj_succ, Z.pow_succ_r in Hi by lia.
        split; [apply Z.div_pos; lia | apply Z.div_lt_upper_bound; lia]. }
      assert (Hd : 0 <= i mod 10 < 10) by (apply Z.mod_pos_bound; lia).
      destruct (IH (i / 10) (<[bp := byte_of_Z (i mod 10 + 48)]> b) Hq)
        as (bp' & b' & ds & Hrun & Hdrop & Hdig & Hval & Hz & Hnz).
      { rewrite length_insert. lia. }
      exists bp', b', (ds ++ [byte_of_Z (i mod 10 + 48)]).
      destruct (digit_byte (i mod 10) Hd) as [Hd1 Hd2].
      split; [exact Hrun|]. split; [|split; [|split; [|split]]].
      * rewrite Hdrop, <- app_assoc. f_equal.
        rewrite (drop_S _ (byte_of_Z (i mod 10 + 48)) bp).
        -- simpl. f_equal. rewrite drop_insert_lt by lia. reflexivity.
        -- apply list_lookup_insert_eq. lia.
      * rewrite forallb_app, Hdig. simpl. rewrite Hd1. reflexivity.
      * rewrite dec_value_snoc, Hval, Hd2.
        pose proof (Z.div_mod i 10). lia.
      * intros; lia.
      * intros _. destruct (Z.eq_dec (i / 10) 0) as [Hq0|Hq0].
        -- rewrite (Hz Hq0). simpl. eexists _, []. split; [reflexivity|].
           apply digit_byte_nonzero.
           pose proof (Z.div_mod i 10). lia.
        -- destruct Hnz as (c & rest & -> & Hc); [lia|].
           exists c, (rest ++ [byte_of_Z (i mod 10 + 48)]). split; [reflexivity | exact Hc].
    + apply Z.ltb_ge in Hpos. assert (i = 0) by lia. subst i.
      exists (S bp), b, []. repeat split; try reflexivity. intros; lia.
Qed.

Lemma itod_decimal (i : Z) :
  0 <= i < 2 ^ 64 -> exists s, itod i = Some s /\ is_decimal_of s i.
Proof.
  intros Hi. unfold itod. destruct (i =? 0) eqn:H0.
  - apply Z.eqb_eq in H0. subst i. exists "0". split; [reflexivity|].
    unfold is_decimal_of. simpl. repeat split; auto; discriminate.
  - apply Z.eqb_neq in H0.
    destruct (itod_loop_digits 32 i (replicate 32 (byte_of_Z 0)))
      as (bp' & b' & ds & Hrun & Hdrop & Hdig & Hval & _ & Hnz).
    { split; [lia|]. eapply Z.lt_trans; [apply Hi|]. reflexivity. }
    { rewrite length_replicate. lia. }
    rewrite Hrun. eexists. split; [reflexivity|].
    rewrite Hdrop. rewrite drop_ge by (rewrite length_replicate; lia).
    rewrite app_nil_r.
    destruct Hnz as (c & rest & -> & Hc); [lia|].
    unfold is_decimal_of. rewrite list_ascii_of_string_of_list_ascii.
    repeat split; auto; try discriminate.
    right. simpl. congruence.
Qed.

(** C10: for every unsigned integer [i], [itod i] returns the standard
    base-10 numeral of [i] (digits only, of value [i], no leading zero), and
    [itod 0] returns ["0"]. *)
Theorem itod_standard_decimal (i : Z) :
  0 <= i < 2 ^ 64 ->
  (exists s, itod i = Some s /\ is_decimal_of s i) /\ itod 0 = Some "0".
Proof.
  intros Hi. split; [apply itod_decimal; exact Hi | reflexivity].
Qed.

Lemma itod_standard_decimal_witness :
  0 <= 8080 < 2 ^ 64 /\
  ((exists s, itod 8080 = Some s /\ is_decimal_of s 8080) /\ itod 0 = Some "0").
Proof.
  assert (H : 0 <= 8080 < 2 ^ 64) by (split; [lia | reflexivity]).
  split; [exact H | apply (itod_standard_decimal 8080 H)].
Defined.

(** ** The original destination *)

Lemma decodeOriginalDst_bytes (b0 b1 b2 b3 b4 b5 b6 b7 : Z) (rest : list Z) :
  0 <= b2 < 256 -> 0 <= b3 < 256 ->
  0 <= b4 < 256 -> 0 <= b5 < 256 -> 0 <= b6 < 256 -> 0 <= b7 < 256 ->
  exists s4 s5 s6 s7,
    decodeOriginalDst (b0 :: b1 :: b2 :: b3 :: b4 :: b5 :: b6 :: b7 :: rest) =
      Some (s4 +:+ "." +:+ s5 +:+ "." +:+ s6 +:+ "." +:+ s7, b2 * 256 + b3) /\
    is_decimal_of s4 b4 /\ is_decimal_of s5 b5 /\
    is_decimal_of s6 b6 /\ is_decimal_of s7 b7.
Proof.
  intros H2 H3 H4 H5 H6 H7.
  assert (Hbig : 256 <= 2 ^ 64) by (intros Hc; discriminate Hc).
  destruct (itod_decimal b4) as (s4 & E4 & D4); [lia|].
  destruct (itod_decimal b5) as (s5 & E5 & D5); [lia|].
  destruct (itod_decimal b6) as (s6 & E6 & D6); [lia|].
  destruct (itod_decimal b7) as (s7 & E7 & D7); [lia|].
  exists s4, s5, s6, s7. split; [|auto].
  unfold decodeOriginalDst.
  cbn -[itod Z.shiftl Z.modulo Z.pow String.append].
  rewrite E4, E5, E6, E7.
  cbn -[Z.shiftl Z.modulo Z.pow String.append].
  do 2 f_equal.
  rewrite Z.shiftl_mul_pow2 by lia.
  change (2 ^ 8) with 256. change (2 ^ 16) with 65536.
  rewrite (Z.mod_small (b2 * 256)) by lia.
  rewrite Z.mod_small by lia. reflexivity.
Qed.

(** C7: from the 16 bytes of SO_ORIGINAL_DST, [getOriginalDst] returns the
    port [byte2 * 256 + byte3] and, as the address, the decimal numerals of
    bytes 4 to 7 in order, joined by dots. *)
Theorem getOriginalDst_decodes (env : environment) (c : tcpConn) (fd : nat)
    (Multiaddr : list Z) (w : world) :
  is_Some (RemoteAddr env c) ->
  conn_File env c = true ->
  GetsockoptIPv6Mreq env c = Some Multiaddr ->
  net_FileConn env c = FileConnTCP fd ->
  length Multiaddr = 16%nat ->
  Forall (fun b => 0 <= b < 256) Multiaddr ->
  exists s4 s5 s6 s7 w',
    getOriginalDst env (Some c) w =
      Some ((s4 +:+ "." +:+ s5 +:+ "." +:+ s6 +:+ "." +:+ s7,
             nth 2 Multiaddr 0 * 256 + nth 3 Multiaddr 0,
             Some (Client fd), false), w') /\
    is_decimal_of s4 (nth 4 Multiaddr 0) /\
    is_decimal_of s5 (nth 5 Multiaddr 0) /\
    is_decimal_of s6 (nth 6 Multiaddr 0) /\
    is_decimal_of s7 (nth 7 Multiaddr 0).
Proof.
  intros [a Ha] Hfile Hopt Hconn Hlen Hbytes.
  do 8 (destruct Multiaddr as [|? Multiaddr]; [discriminate Hlen|]).
  repeat match goal with
         | H : Forall _ (_ :: _) |- _ => apply Forall_cons in H; destruct H as [? H]
         end.
  destruct (decodeOriginalDst_bytes z z0 z1 z2 z3 z4 z5 z6 Multiaddr)
    as (s4 & s5 & s6 & s7 & Hdec & D4 & D5 & D6 & D7); try assumption.
  exists s4, s5, s6, s7.
  unfold getOriginalDst. rewrite Ha, Hfile, Hopt, Hconn.
  cbn [negb nth]. unfold mbind, M_bind, emit. rewrite Hdec.
  eexists. split; [reflexivity | auto].
Qed.

Lemma getOriginalDst_decodes_witness :
  exists s4 s5 s6 s7 w',
    getOriginalDst (sample_env None None ("", "")) (Some (Client 0)) initial_world =
      Some ((s4 +:+ "." +:+ s5 +:+ "." +:+ s6 +:+ "." +:+ s7,
             nth 2 sample_Multiaddr 0 * 256 + nth 3 sample_Multiaddr 0,
             Some (Client 1), false), w') /\
    is_decimal_of s4 (nth 4 sample_Multiaddr 0) /\
    is_decimal_of s5 (nth 5 sample_Multiaddr 0) /\
    is_decimal_of s6 (nth 6 sample_Multiaddr 0) /\
    is_decimal_of s7 (nth 7 sample_Multiaddr 0).
Proof.
  apply getOriginalDst_decodes.
  - eexists; reflexivity.
  - reflexivity.
  - reflexivity.
  - reflexivity.
  - reflexivity.
  - unfold sample_Multiaddr. repeat (apply Forall_cons; split; [lia|]). constructor.
Defined.

(** The example of the comment at source line 573: port 8080 at
    206.190.36.45. *)
Example decodeOriginalDst_sample :
  decodeOriginalDst sample_Multiaddr = Some ("206.190.36.45", 8080).
Proof. vm_compute. reflexivity. Qed.

(** ** The director *)

(** The scan stops at the first director that answers true and reports its
    position, counted from [idx]. *)
Lemma director_loop_first (directors : list directorFunc) (ipaddr : IP) :
  forall idx : nat,
    (exists k d,
        director_loop idx directors ipaddr = (true, (idx + k)%nat) /\
        directors !! k = Some d /\ d ipaddr = true /\
        forall j d', (j < k)%nat -> directors !! j = Some d' -> d' ipaddr = false)
    \/ (director_loop idx directors ipaddr = (false, 0%nat) /\
        forall d, d ∈ directors -> d ipaddr = false).
Proof.
  induction directors as [|dfunc rest IH]; intros idx.
  - right. split; [reflexivity|]. intros d Hd. inversion Hd.
  - simpl. destruct (dfunc ipaddr) eqn:Hm.
    + left. exists 0%nat, dfunc. rewrite Nat.add_0_r.
      repeat split; auto. intros j d' Hj. lia.
    + destruct (IH (S idx)) as [(k & d & Hrun & Hk & Hd & Hbefore) | [Hrun Hnone]].
      * left. exists (S k), d. rewrite Hrun. split; [f_equal; lia|].
        split; [exact Hk|]. split; [exact Hd|].
        intros [|j] d' Hj Hl; simpl in Hl.
        -- congruence.
        -- apply (Hbefore j); [lia | exact Hl].
      * right. split; [exact Hrun|].
        intros d Hd. apply elem_of_cons in Hd as [-> | Hd]; auto.
Qed.

Lemma rule_func_cases (env : environment) (r : rule) (testIp : IP) :
  rule_func env r testIp =
  match r with
  | Exact directorIp => IP_Equal env testIp directorIp
  | Cidr directorIpNet => IPNet_Contains env directorIpNet testIp
  end.
Proof. destruct r; reflexivity. Qed.

Lemma director_loop_ext (directors : list directorFunc) (ipaddr ipaddr' : IP) :
  (forall d, d ∈ directors -> d ipaddr' = d ipaddr) ->
  forall idx : nat,
    director_loop idx directors ipaddr' = director_loop idx directors ipaddr.
Proof.
  induction directors as [|dfunc rest IH]; intros Hsame idx; [reflexivity|].
  simpl. rewrite (Hsame dfunc) by left.
  destruct (dfunc ipaddr); [reflexivity|].
  apply IH. intros d Hd. apply Hsame. right. exact Hd.
Qed.

(** C6: the director scans the rules in the order of the configuration and
    answers [(true, i)] for the first rule [i] that matches the address,
    [(false, 0)] when none does.  The rules are those of the comma-separated
    list: a piece with a ['/'] is the block [net.ParseCIDR] reads in it, any
    other piece the address [net.ParseIP] reads in it; an [Exact] rule
    matches when [IP.Equal] says the address is the rule's, a [Cidr] rule
    when [IPNet.Contains] says the block holds the address.  The answer
    depends on the address only through what these two say about it for the
    rules: evaluated again on the same address, or on one the rules treat
    alike, the director answers the same. *)
Theorem director_first_match (env : environment) (gDirects : string)
    (rules : list rule) (ipaddr : IP) :
  parse_rules env gDirects = Some rules ->
  Forall2 (fun piece r =>
             if Contains piece "/"
             then exists directorIpNet,
                    net_ParseCIDR env piece = Some directorIpNet /\ r = Cidr directorIpNet
             else r = Exact (net_ParseIP env piece))
          (Split_comma gDirects) rules /\
  exists directors,
    buildDirectors env gDirects = Some directors /\
    ((exists i r,
         getDirector directors ipaddr = (true, i) /\
         rules !! i = Some r /\
         match r with
         | Exact directorIp => IP_Equal env ipaddr directorIp
         | Cidr directorIpNet => IPNet_Contains env directorIpNet ipaddr
         end = true /\
         forall j r', (j < i)%nat -> rules !! j = Some r' ->
                      match r' with
                      | Exact directorIp => IP_Equal env ipaddr directorIp
                      | Cidr directorIpNet => IPNet_Contains env directorIpNet ipaddr
                      end = false)
     \/ (getDirector directors ipaddr = (false, 0%nat) /\
         forall r, r ∈ rules ->
                   match r with
                   | Exact directorIp => IP_Equal env ipaddr directorIp
                   | Cidr directorIpNet => IPNet_Contains env directorIpNet ipaddr
                   end = false)) /\
    (forall ipaddr',
       (forall r, r ∈ rules ->
                  match r with
                  | Exact directorIp => IP_Equal env ipaddr' directorIp
                  | Cidr directorIpNet => IPNet_Contains env directorIpNet ipaddr'
                  end =
                  match r with
                  | Exact directorIp => IP_Equal env ipaddr directorIp
                  | Cidr directorIpNet => IPNet_Contains env directorIpNet ipaddr
                  end) ->
       getDirector directors ipaddr' = getDirector directors ipaddr).
Proof.
  intros Hparse. split.
  { apply mapM_Some_1 in Hparse. eapply Forall2_impl; [exact Hparse|].
    intros piece r. unfold parse_rule. cbv beta.
    destruct (Contains piece "/").
    - destruct (net_ParseCIDR env piece) as [directorIpNet|]; [|discriminate].
      intros H. injection H as <-. eauto.
    - intros H. injection H as <-. reflexivity. }
  exists (map (rule_func env) rules). unfold buildDirectors. rewrite Hparse.
  split; [reflexivity|]. split.
  - unfold getDirector.
    destruct (director_loop_first (map (rule_func env) rules) ipaddr 0)
      as [(k & d & Hrun & Hk & Hd & Hbefore) | [Hrun Hnone]].
    + left. change (map (rule_func env) rules) with (rule_func env <$> rules) in Hk.
      rewrite list_lookup_fmap in Hk.
      destruct (rules !! k) as [r|] eqn:Hr; [|discriminate].
      injection Hk as <-. exists k, r. split; [exact Hrun|]. split; [exact Hr|].
      split; [rewrite <- rule_func_cases; exact Hd|].
      intros j r' Hj Hl. rewrite <- rule_func_cases.
      apply (Hbefore j (rule_func env r') Hj).
      change (map (rule_func env) rules) with (rule_func env <$> rules).
      rewrite list_lookup_fmap, Hl. reflexivity.
    + right. split; [exact Hrun|]. intros r Hr. rewrite <- rule_func_cases.
      apply Hnone. change (map (rule_func env) rules) with (rule_func env <$> rules).
      apply list_elem_of_fmap_2. exact Hr.
  - intros ipaddr' Hsame. unfold getDirector. apply director_loop_ext.
    intros d Hd. change (map (rule_func env) rules) with (rule_func env <$> rules) in Hd.
    apply list_elem_of_fmap in Hd as (r & -> & Hr).
    rewrite !rule_func_cases. apply Hsame. exact Hr.
Qed.

Lemma director_first_match_witness :
  let env := sample_env None None ("", "") in
  exists directors,
    buildDirectors env "10.1.1.1,10.0.0.0/8" = Some directors /\
    getDirector directors [10; 1; 2; 3] = (true, 1%nat).
Proof.
  intros env.
  destruct (director_first_match env "10.1.1.1,10.0.0.0/8"
              [Exact [10; 1; 1; 1];
               Cidr {| Net_IP := [10; 0; 0; 0]; Net_Mask := [255; 0; 0; 0] |}]
              [10; 1; 2; 3])
    as (_ & directors & Hbuild & [(i & r & Hrun & Hr & Hm & _) | (_ & Hnone)] & _).
  - vm_compute. reflexivity.
  - exists directors. split; [exact Hbuild|]. rewrite Hrun.
    destruct i as [|[|i]].
    + exfalso. injection Hr as <-. revert Hm. vm_compute. discriminate.
    + reflexivity.
    + discriminate.
  - exfalso.
    assert (Hm := Hnone (Cidr {| Net_IP := [10; 0; 0; 0]; Net_Mask := [255; 0; 0; 0] |})
                    ltac:(right; left)).
    revert Hm. vm_compute. discriminate.
Defined.

Example director_sample :
  let env := sample_env None None ("", "") in
  (ds ← buildDirectors env "10.1.1.1,10.0.0.0/8";
   Some (getDirector ds [10; 1; 2; 3], getDirector ds [10; 1; 1; 1],
         getDirector ds [192; 168; 0; 1])) =
  Some ((true, 1%nat), (true, 0%nat), (false, 0%nat)).
Proof. vm_compute. reflexivity. Qed.

(** ** The connection pool *)

Lemma gc_loop_step (id : Z) (ids : list Z) (n : nat) (w : world) :
  gc_loop (id :: ids) (S n) w =
  match default nilConn (pool (cp w) !! id) with
  | tcp None => None
  | tcp (Some t) =>
      gc_loop ids n
        {| cp := {| pool := delete id (pool (cp w)); idCounter := idCounter (cp w) |};
           gReverseLookupCache := gReverseLookupCache w;
           trace := trace w ++ [Close t] |}
  | nilConn =>
      gc_loop ids n
        {| cp := {| pool := delete id (pool (cp w)); idCounter := idCounter (cp w) |};
           gReverseLookupCache := gReverseLookupCache w;
           trace := trace w |}
  end.
Proof.
  simpl. destruct (default nilConn (pool (cp w) !! id)) as [|[t|]]; reflexivity.
Qed.

(** When the loop of [gc] returns it has removed one entry per iteration. *)
Lemma gc_loop_size (ids : list Z) :
  forall (n : nat) (w w' : world) (u : unit),
    NoDup ids ->
    (forall id, id ∈ ids -> is_Some (pool (cp w) !! id)) ->
    gc_loop ids n w = Some (u, w') ->
    (size (pool (cp w')) + n = size (pool (cp w)))%nat.
Proof.
  induction ids as [|id ids IH]; intros n w w' u Hnd Hin Hrun.
  - destruct n; simpl in Hrun; [|discriminate].
    injection Hrun as _ <-. lia.
  - destruct n as [|n]; [simpl in Hrun; injection Hrun as _ <-; lia|].
    rewrite gc_loop_step in Hrun.
    apply NoDup_cons in Hnd as [Hnotin Hnd].
    destruct (Hin id) as [c Hc]; [left|].
    assert (Hsz : (size (delete id (pool (cp w))) + 1 = size (pool (cp w)))%nat).
    { rewrite map_size_delete, Hc.
      assert (size (pool (cp w)) <> 0%nat); [|lia].
      intros H0. apply map_size_empty_iff in H0. rewrite H0 in Hc.
      rewrite lookup_empty in Hc. discriminate. }
    assert (Hin' : forall id', id' ∈ ids -> is_Some (delete id (pool (cp w)) !! id')).
    { intros id' Hid'. rewrite lookup_delete_ne; [apply Hin; right; exact Hid'|].
      intros ->. contradiction. }
    rewrite Hc in Hrun. simpl in Hrun.
    destruct c as [|[t|]]; [| |discriminate];
      apply IH in Hrun; auto; simpl in Hrun; lia.
Qed.

(** The loop returns when it does not run past the ids and no entry of the
    pool holds a nil pointer. *)
Lemma gc_loop_returns (ids : list Z) :
  forall (n : nat) (w : world),
    (n <= length ids)%nat ->
    (forall id, pool (cp w) !! id <> Some (tcp None)) ->
    exists w', gc_loop ids n w = Some (tt, w').
Proof.
  induction ids as [|id ids IH]; intros n w Hn Hlive.
  - destruct n; [|simpl in Hn; lia]. eexists; reflexivity.
  - destruct n as [|n]; [eexists; reflexivity|].
    rewrite gc_loop_step.
    assert (Hd : forall w1 : world,
               pool (cp w1) = delete id (pool (cp w)) ->
               forall id', pool (cp w1) !! id' <> Some (tcp None)).
    { intros w1 -> id' Hl. apply lookup_delete_Some in Hl as [_ Hl].
      exact (Hlive id' Hl). }
    destruct (pool (cp w) !! id) as [[|[t|]]|] eqn:Hc; simpl.
    + apply IH; [simpl in Hn; lia | apply Hd; reflexivity].
    + apply IH; [simpl in Hn; lia | apply Hd; reflexivity].
    + exfalso. exact (Hlive id Hc).
    + apply IH; [simpl in Hn; lia | apply Hd; reflexivity].
Qed.

(** C2: after any sequence of [add] and [del], a [gc] that returns leaves at
    most [max] entries; exactly [max - 512] when there were [max] or more;
    and it changes nothing when there were fewer than [max].  It does return
    then, and also, for [max] no less than 512, whenever no entry of the
    pool holds a nil pointer. *)
Theorem gc_bounds (cfg : config) (env : environment) (ops : list poolOp) (w : world) :
  (forall ids, rand_Shuffle env ids ≡ₚ ids) ->
  cp w = pool_run ops ->
  (forall u w', gc cfg env w = Some (u, w') ->
     pool_size (cp w') <= gMaxConn cfg /\
     (gMaxConn cfg <= pool_size (cp w) -> pool_size (cp w') = gMaxConn cfg - 512) /\
     (pool_size (cp w) < gMaxConn cfg -> w' = w)) /\
  (pool_size (cp w) < gMaxConn cfg -> gc cfg env w = Some (tt, w)) /\
  (512 <= gMaxConn cfg ->
   (forall id, pool (cp w) !! id <> Some (tcp None)) ->
   exists w', gc cfg env w = Some (tt, w')).
Proof.
  intros Hperm _.
  set (ids := rand_Shuffle env (map fst (map_to_list (pool (cp w))))).
  assert (Hids : ids ≡ₚ (map_to_list (pool (cp w))).*1) by apply Hperm.
  assert (Hlen : length ids = size (pool (cp w))).
  { rewrite Hids, length_fmap. apply length_map_to_list. }
  split; [|split].
  - intros u w' Hrun. unfold gc in Hrun.
    destruct (pool_size (cp w) <? gMaxConn cfg) eqn:Hlt.
    + apply Z.ltb_lt in Hlt. injection Hrun as _ <-.
      split; [lia|]. split; [lia | reflexivity].
    + apply Z.ltb_ge in Hlt. fold ids in Hrun.
      apply gc_loop_size in Hrun.
      * unfold pool_size in *. split; [lia|]. split; lia.
      * rewrite Hids. apply NoDup_fst_map_to_list.
      * intros id Hid. rewrite Hids in Hid.
        apply list_elem_of_fmap in Hid as ([id' c] & -> & Hin).
        apply elem_of_map_to_list in Hin. simpl. rewrite Hin. eexists; reflexivity.
  - intros Hlt. unfold gc. apply Z.ltb_lt in Hlt. rewrite Hlt. reflexivity.
  - intros Hmax Hlive. unfold gc.
    destruct (pool_size (cp w) <? gMaxConn cfg); [eexists; reflexivity|].
    fold ids. apply gc_loop_returns; [|exact Hlive].
    unfold pool_size. lia.
Qed.

Lemma gc_bounds_witness :
  let cfg := sample_cfg 0 0 in
  let env := sample_env None None ("", "") in
  let ops := [OpAdd (tcp (Some (Client 3))); OpAdd (tcp None); OpDel 1] in
  let w := {| cp := pool_run ops; gReverseLookupCache := NewReverseLookupCache;
              trace := [] |} in
  (forall u w', gc cfg env w = Some (u, w') ->
     pool_size (cp w') <= gMaxConn cfg /\
     (gMaxConn cfg <= pool_size (cp w) -> pool_size (cp w') = gMaxConn cfg - 512) /\
     (pool_size (cp w) < gMaxConn cfg -> w' = w)) /\
  gc cfg env w = Some (tt, w).
Proof.
  intros cfg env ops w.
  destruct (gc_bounds cfg env ops w) as (Hafter & Hbelow & _).
  - intros ids. reflexivity.
  - reflexivity.
  - split; [exact Hafter|]. apply Hbelow. reflexivity.
Defined.

(** Scenario 6 of the specification: with [max = 1024] and 1024 connections
    in the pool, [gc] leaves 512. *)
Example gc_sample :
  let cfg := {| gProxyServerSpec := ""; gDirects := ""; gProxyServers := [];
                gAuthProxyServers := ∅; gClientRedirects := 0; gReverseLookups := 0;
                gSNIParsing := 0; gMaxConn := 1024 |} in
  let ops := map (fun n => OpAdd (tcp (Some (Client n)))) (seq 0 1024) in
  let w := {| cp := pool_run ops; gReverseLookupCache :=
                {| hostnames := ∅; keys := []; next := 0 |}; trace := [] |} in
  pool_size (cp w) = 1024 /\
  (fun r => match r with
            | Some (_, w') => Some (pool_size (cp w'))
            | None => None
            end) (gc cfg (sample_env None None ("", "")) w) = Some 512.
Proof. vm_compute. split; reflexivity. Qed.

(** Failed dials leave nil pointers in the pool (line 633).  When [gc]
    comes to evict one, the test [conn != nil] of line 202 passes, the
    interface not being nil, and [conn.Close()] panics. *)
Example gc_nil_entry :
  let cfg := {| gProxyServerSpec := ""; gDirects := ""; gProxyServers := [];
                gAuthProxyServers := ∅; gClientRedirects := 0; gReverseLookups := 0;
                gSNIParsing := 0; gMaxConn := 1024 |} in
  let ops := map (fun _ => OpAdd (tcp None)) (seq 0 1024) in
  let w := {| cp := pool_run ops; gReverseLookupCache :=
                {| hostnames := ∅; keys := []; next := 0 |}; trace := [] |} in
  gc cfg (sample_env None None ("", "")) w = None.
Proof. vm_compute. reflexivity. Qed.

(** ** The dialer *)

Ltac unfold_M :=
  unfold mbind, M_bind, mret, M_ret, emit, panic, cp_add, cp_del, cp_delete,
    with_pool in *.

Lemma dial_unresolved (cfg : config) (env : environment) (spec : string) (w : world) :
  dial_target env spec = None ->
  dial cfg env spec w = Some ((None, 0, true), w).
Proof.
  unfold dial_target, dial. intros H.
  destruct (net_SplitHostPort env spec) as [[host port]|]; [|reflexivity].
  destruct (net_ResolveIPAddr env host); [|reflexivity].
  destruct (strconv_Atoi env port); [discriminate | reflexivity].
Qed.

Lemma dial_connecting (cfg : config) (env : environment) (spec : string)
    (remoteAddr : IP) (portInt : Z) (w w1 : world) (u : unit) :
  dial_target env spec = Some (remoteAddr, portInt) ->
  gc cfg env w = Some (u, w1) ->
  let conn := Remote <$> net_DialTCP env remoteAddr portInt in
  let rid := (idCounter (cp w1) + 1) mod 2 ^ 64 in
  dial cfg env spec w =
    Some ((conn, rid, bool_decide (conn = None)),
          {| cp := {| pool := <[rid := tcp conn]> (pool (cp w1)); idCounter := rid |};
             gReverseLookupCache := gReverseLookupCache w1;
             trace := trace w1 |}).
Proof.
  unfold dial_target, dial. intros H Hgc.
  destruct (net_SplitHostPort env spec) as [[host port]|]; [|discriminate].
  destruct (net_ResolveIPAddr env host); [|discriminate].
  destruct (strconv_Atoi env port); [|discriminate].
  injection H as -> ->. unfold_M. rewrite Hgc.
  destruct (net_DialTCP env remoteAddr portInt); reflexivity.
Qed.

(** C9, as the code has it: a call of [dial] that gets as far as the TCP
    connect registers a new id for its connection, nil when the connect
    failed, and returns that id with the connection and the error; a call
    whose spec does not split, resolve or convert returns id 0 and leaves
    the pool as it was. *)
Theorem dial_registers_when_connecting (cfg : config) (env : environment)
    (spec : string) (w : world) :
  match dial_target env spec with
  | None => dial cfg env spec w = Some ((None, 0, true), w)
  | Some (remoteAddr, portInt) =>
      forall u w1, gc cfg env w = Some (u, w1) ->
        let conn := Remote <$> net_DialTCP env remoteAddr portInt in
        let rid := (idCounter (cp w1) + 1) mod 2 ^ 64 in
        exists w',
          dial cfg env spec w = Some ((conn, rid, bool_decide (conn = None)), w') /\
          pool (cp w') = <[rid := tcp conn]> (pool (cp w1)) /\
          pool (cp w') !! rid = Some (tcp conn) /\
          trace w' = trace w1
  end.
Proof.
  destruct (dial_target env spec) as [[remoteAddr portInt]|] eqn:Ht.
  - intros u w1 Hgc conn rid.
    eexists. split; [apply (dial_connecting cfg env spec remoteAddr portInt w w1 u Ht Hgc)|].
    simpl. split; [reflexivity|]. split; [apply lookup_insert_eq | reflexivity].
  - apply dial_unresolved. exact Ht.
Qed.

Lemma dial_registers_when_connecting_witness :
  exists w',
    dial (sample_cfg 0 0) (sample_env None None ("", "")) "10.0.0.9:3128" initial_world =
      Some ((None, 1, true), w') /\
    pool (cp w') !! 1 = Some (tcp None).
Proof.
  pose proof (dial_registers_when_connecting (sample_cfg 0 0)
                (sample_env None None ("", "")) "10.0.0.9:3128" initial_world) as H.
  change (dial_target (sample_env None None ("", "")) "10.0.0.9:3128")
    with (Some ([10; 0; 0; 9], 3128)) in H.
  destruct (H tt initial_world eq_refl) as (w' & Hrun & _ & Hl & _).
  exists w'. split; [exact Hrun | exact Hl].
Defined.

(** C9 as stated fails: a spec whose host does not resolve makes [dial]
    return id 0 without touching the pool. *)
Lemma dial_unresolved_counterexample :
  ~ dial_always_registers (sample_cfg 0 0) (sample_env None None ("", ""))
      "unknown.invalid:80" initial_world.
Proof.
  intros (conn & rid & err & w' & Hrun & Hl).
  rewrite dial_unresolved in Hrun by reflexivity.
  injection Hrun as <- <- <- <-.
  simpl in Hl. rewrite lookup_empty in Hl. discriminate.
Qed.

(** ** Formats *)

Lemma doPrintf_plain (s : string) : plain s = true -> doPrintf Text s = Some s.
Proof.
  unfold plain. induction s as [|c s IH]; simpl; intros H; [reflexivity|].
  apply andb_true_iff in H as [Hc Hs].
  destruct (Ascii.eqb c "%"%char); [discriminate|].
  rewrite (IH Hs). reflexivity.
Qed.

Lemma Sprintf0_plain (s : string) : plain s = true -> Sprintf0 s = Some s.
Proof. apply doPrintf_plain. Qed.

Lemma plain_app (a b : string) : plain (a +:+ b) = plain a && plain b.
Proof.
  unfold plain. induction a as [|c a IH]; simpl; [reflexivity|].
  rewrite IH. apply andb_assoc.
Qed.

Lemma plain_string_of_uint (d : Decimal.uint) : plain (NilEmpty.string_of_uint d) = true.
Proof. induction d; simpl; auto. Qed.

Lemma plain_fmt_d (n : Z) : plain (fmt_d n) = true.
Proof.
  unfold fmt_d, NilZero.string_of_uint.
  destruct (N.to_uint (Z.to_N n)) eqn:E; try reflexivity;
    rewrite <- E; apply plain_string_of_uint.
Qed.

(** With no ['%'] in the host name, the authorization and the forwarding
    header, the bytes sent are the CONNECT request itself. *)
Lemma connect_request_plain (pc : tcpConn) (H : string) (P : Z) (auth xff : string) :
  plain H = true -> plain auth = true -> plain xff = true ->
  wire (Fprintf pc (connectString H P auth xff)) =
    Some (pc, "CONNECT " +:+ H +:+ ":" +:+ fmt_d P +:+ " HTTP/1.0" +:+ auth +:+
              CRLF +:+ xff +:+ CRLF).
Proof.
  intros HH Hauth Hxff. unfold wire. rewrite Sprintf0_plain; [reflexivity|].
  unfold connectString. rewrite !plain_app, HH, Hauth, Hxff, plain_fmt_d. reflexivity.
Qed.

(** ** The handlers at work *)

(** C1, where the code departs from it.  A client is accepted and its one
    upstream refuses the TCP connect: the handler answers 503, closes the
    client and returns, and the pool still holds the client's id 1 and the
    id 2 that [dial] registered for the nil connection.  When the upstream
    answers 502 instead, id 2 maps to the abandoned upstream socket, which
    is neither closed nor removed. *)
Theorem orchestrator_leaves_ids :
  outcome (serve (sample_cfg 0 0) (sample_env None None ("", "")) 0 initial_world) =
    Some (1,
          [(2, tcp None); (1, tcp (Some (Client 0)))],
          [Close (Client 0); Fprintf (Client 1) ERR_NO_PROXIES; Close (Client 1)],
          [(Client 1, ERR_NO_PROXIES)]) /\
  outcome (serve (sample_cfg 0 0)
             (sample_env (Some 5%nat) (Some ("HTTP/1.0 502 Bad Gateway" +:+ CRLF)) ("", ""))
             0 initial_world) =
    Some (1,
          [(2, tcp (Some (Remote 5))); (1, tcp (Some (Client 0)))],
          [Close (Client 0);
           Fprintf (Remote 5)
             (connectString "206.190.36.45" 8080 ""
                ("X-Forwarded-For: 198.51.100.7" +:+ CRLF));
           Incr ProxyNon200Responses;
           Fprintf (Client 1) ERR_NO_PROXIES; Close (Client 1)],
          [(Remote 5,
            connectString "206.190.36.45" 8080 ""
              ("X-Forwarded-For: 198.51.100.7" +:+ CRLF));
           (Client 1, ERR_NO_PROXIES)]).
Proof. split; vm_compute; reflexivity. Qed.

(** C5, where the code departs from it.  The request string is passed to
    [fmt.Fprintf] as its format (line 739).  With SNI parsing on and a
    client hello naming ["ex%ample.com"], the request composed is
    ["CONNECT ex%ample.com:8080 HTTP/1.0..."], and the bytes that reach the
    upstream are its expansion as a format,
    ["CONNECT ex%!a(MISSING)mple.com:8080 HTTP/1.0..."]. *)
Theorem connect_request_expanded_as_format :
  let cfg := sample_cfg 0 1 in
  let env := sample_env (Some 5%nat) (Some ("HTTP/1.0 200 OK" +:+ CRLF)) ("ex%ample.com", "") in
  let xff := "X-Forwarded-For: 198.51.100.7" +:+ CRLF in
  let request := "CONNECT " +:+ "ex%ample.com" +:+ ":" +:+ "8080" +:+ " HTTP/1.0" +:+ "" +:+
                 CRLF +:+ xff +:+ CRLF in
  let sent := "CONNECT ex%!a(MISSING)mple.com:8080 HTTP/1.0" +:+ CRLF +:+ xff +:+ CRLF in
  outcome (serve cfg env 0 initial_world) =
    Some (1,
          [(2, tcp (Some (Remote 5))); (1, tcp (Some (Client 0)))],
          [Close (Client 0);
           Fprintf (Remote 5) request;
           Write (Remote 5) "";
           Incr Proxy200Responses; Incr ProxiedConnections;
           Go (tcp (Some (Client 1))) (tcp (Some (Remote 5))) "client" "proxyserver" 1;
           Go (tcp (Some (Remote 5))) (tcp (Some (Client 1))) "proxyserver" "client" 2],
          [(Remote 5, sent); (Remote 5, "")]) /\
  sent <> request.
Proof. split; [vm_compute; reflexivity | discriminate]. Qed.

(** *** What each step adds to the trace *)

Lemma gc_loop_closes (ids : list Z) :
  forall (n : nat) (w w' : world) (u : unit),
    gc_loop ids n w = Some (u, w') ->
    exists evs, trace w' = trace w ++ evs /\ forallb is_Close evs = true.
Proof.
  induction ids as [|id ids IH]; intros n w w' u Hrun.
  - destruct n; [|discriminate]. injection Hrun as _ <-.
    exists []. rewrite app_nil_r. auto.
  - destruct n as [|n].
    + injection Hrun as _ <-. exists []. rewrite app_nil_r. auto.
    + rewrite gc_loop_step in Hrun.
      destruct (default nilConn (pool (cp w) !! id)) as [|[t|]]; [| |discriminate].
      * apply IH in Hrun as (evs & Ht & Hc). exists evs. auto.
      * apply IH in Hrun as (evs & Ht & Hc). simpl in Ht.
        exists (Close t :: evs). rewrite Ht, <- app_assoc. auto.
Qed.

Lemma gc_closes (cfg : config) (env : environment) (w w' : world) (u : unit) :
  gc cfg env w = Some (u, w') ->
  exists evs, trace w' = trace w ++ evs /\ forallb is_Close evs = true.
Proof.
  unfold gc. destruct (pool_size (cp w) <? gMaxConn cfg).
  - intros H. injection H as _ <-. exists []. rewrite app_nil_r. auto.
  - apply gc_loop_closes.
Qed.

(** [dial] closes connections (in [gc]) and does nothing else that shows;
    without an error its connection is a socket it has just opened. *)
Lemma dial_closes (cfg : config) (env : environment) (spec : string)
    (w w' : world) (conn : option tcpConn) (rid : Z) (err : bool) :
  dial cfg env spec w = Some ((conn, rid, err), w') ->
  (exists evs, trace w' = trace w ++ evs /\ forallb is_Close evs = true) /\
  (if err then conn = None else exists fd, conn = Some (Remote fd)).
Proof.
  intros Hrun.
  destruct (dial_target env spec) as [[remoteAddr portInt]|] eqn:Ht.
  - destruct (gc cfg env w) as [[u w1]|] eqn:Hgc.
    + rewrite (dial_connecting cfg env spec remoteAddr portInt w w1 u Ht Hgc) in Hrun.
      injection Hrun as <- <- <- <-. simpl. split; [eapply gc_closes; exact Hgc|].
      destruct (net_DialTCP env remoteAddr portInt) as [fd|]; simpl; eauto.
    + exfalso. revert Hrun Ht. unfold dial, dial_target.
      destruct (net_SplitHostPort env spec) as [[host port]|]; [|discriminate].
      destruct (net_ResolveIPAddr env host); [|discriminate].
      destruct (strconv_Atoi env port); [|discriminate].
      unfold_M. rewrite Hgc. discriminate.
  - rewrite dial_unresolved in Hrun by exact Ht.
    injection Hrun as <- <- <- <-. split; [|reflexivity].
    exists []. rewrite app_nil_r. auto.
Qed.

(** The synchronous [copy] of the 400 and redirect branches: it splices,
    counts the error, removes the client's id and closes both ends. *)
Lemma copy_client_proxy (env : environment) (c pc : tcpConn) (cid : Z) (w : world) :
  exists counts,
    copy env (tcp (Some c)) (tcp (Some pc)) "client" "proxyserver" cid w =
      Some (tt, {| cp := pool_del cid (cp w);
                   gReverseLookupCache := gReverseLookupCache w;
                   trace := trace w ++ [IoCopy c pc] ++ counts ++ [Close c; Close pc] |}) /\
    forallb (fun e => negb (touches c e)) counts = true.
Proof.
  exists (match io_Copy env c pc with
          | Some op =>
              (if String.eqb op "read" then [Incr ProxyServerReadErr] else []) ++
              (if String.eqb op "write" then [Incr ProxyServerWriteErr] else [])
          | None => []
          end).
  unfold copy. cbn [Conn_is_nil deref]. unfold_M.
  change (String.eqb "proxyserver" "proxyserver") with true.
  change (String.eqb "proxyserver" "directserver") with false.
  destruct (io_Copy env c pc) as [op|].
  - destruct (String.eqb op "read"), (String.eqb op "write"); cbn;
      rewrite <- ?app_assoc; split; reflexivity.
  - cbn. rewrite <- ?app_assoc. split; reflexivity.
Qed.

Lemma Close_quiet (c : tcpConn) (evs : list event) :
  forallb is_Close evs = true -> forallb (fun e => negb (touches c e)) evs = true.
Proof.
  induction evs as [|e evs IH]; simpl; [reflexivity|].
  intros H. apply andb_true_iff in H as [He Hs].
  rewrite (IH Hs). destruct e; try discriminate. reflexivity.
Qed.


(** *** One upstream *)

Lemma tryProxy_failed_dial (cfg : config) (env : environment) (clientConn : tcpConn)
    (ipv4 : string) (port cid : Z) (xff : string) (idx : nat) (spec : string)
    (v : loopVars) (w w1 : world) (conn : option tcpConn) (rid1 : Z) :
  dial cfg env spec w = Some ((conn, rid1, true), w1) ->
  tryProxy cfg env clientConn ipv4 port cid xff idx spec v w =
    Some ((Next, {| proxyConn := tcp conn; rid := rid1; host := host v;
                    handshakeBuf := handshakeBuf v |}), w1).
Proof. intros Hd. unfold tryProxy. unfold_M. rewrite Hd. reflexivity. Qed.

Lemma sniPeek_conn (cfg : config) (env : environment) (ipv4 : string) (idx : nat)
    (v : loopVars) :
  proxyConn (snd (sniPeek cfg env ipv4 idx v)) = proxyConn v /\
  rid (snd (sniPeek cfg env ipv4 idx v)) = rid v.
Proof.
  unfold sniPeek. destruct (gSNIParsing cfg =? 1); [|auto].
  destruct (extractSNI env idx). auto.
Qed.

(** After a successful dial the request goes out, then the handshake bytes
    when SNI parsing is on, and the status line decides. *)
Lemma tryProxy_connected (cfg : config) (env : environment) (clientConn : tcpConn)
    (ipv4 : string) (port cid : Z) (xff : string) (idx : nat) (spec : string)
    (v : loopVars) (w w1 : world) (pc : tcpConn) (rid1 : Z) :
  dial cfg env spec w = Some ((Some pc, rid1, false), w1) ->
  let hv := sniPeek cfg env ipv4 idx
              {| proxyConn := tcp (Some pc); rid := rid1; host := host v;
                 handshakeBuf := handshakeBuf v |} in
  let pre := Fprintf pc (connectString (fst hv) port (authString cfg spec) xff)
             :: (if gSNIParsing cfg =? 1 then [Write pc (handshakeBuf (snd hv))] else []) in
  let w2 := {| cp := cp w1; gReverseLookupCache := gReverseLookupCache w1;
               trace := trace w1 ++ pre |} in
  tryProxy cfg env clientConn ipv4 port cid xff idx spec v w =
    match ReadString env pc with
    | None =>
        Some ((Next, snd hv),
              {| cp := cp w1; gReverseLookupCache := gReverseLookupCache w1;
                 trace := trace w2 ++ [Incr ProxyNoConnectResponses] |})
    | Some status => handleStatus cfg env clientConn cid (snd hv) status w2
    end.
Proof.
  intros Hd hv pre w2. unfold tryProxy. unfold_M. rewrite Hd. cbn [proxyConn deref].
  subst w2 pre hv.
  destruct (sniPeek cfg env ipv4 idx _) as [h v1]. cbn [fst snd].
  destruct (gSNIParsing cfg =? 1); cbn; destruct (ReadString env pc); cbn;
    rewrite <- ?app_assoc; cbn [app]; reflexivity.
Qed.

Lemma handleStatus_cases (cfg : config) (env : environment) (c pc : tcpConn)
    (cid : Z) (v : loopVars) (status : string) (w : world) :
  proxyConn v = tcp (Some pc) ->
  exists counts,
    forallb (fun e => negb (touches c e)) counts = true /\
    handleStatus cfg env c cid v status w =
      if Contains status "400" then
        Some ((Return, v),
              {| cp := pool_del cid (cp w); gReverseLookupCache := gReverseLookupCache w;
                 trace := trace w ++ [Incr Proxy400Responses; IoCopy c pc] ++
                          counts ++ [Close c; Close pc] |})
      else if is_redirect cfg status then
        Some ((Return, v),
              {| cp := pool_del cid (cp w); gReverseLookupCache := gReverseLookupCache w;
                 trace := trace w ++ [Incr Proxy300Responses; Fprintf c status; IoCopy c pc] ++
                          counts ++ [Close c; Close pc] |})
      else if negb (Contains status "200") then
        Some ((Next, v),
              {| cp := cp w; gReverseLookupCache := gReverseLookupCache w;
                 trace := trace w ++ [Incr ProxyNon200Responses] |})
      else
        Some ((Break, v),
              {| cp := cp w; gReverseLookupCache := gReverseLookupCache w;
                 trace := trace w ++ [Incr Proxy200Responses] |}).
Proof.
  intros Hpc. unfold handleStatus. rewrite Hpc.
  destruct (Contains status "400").
  - destruct (copy_client_proxy env c pc cid
                {| cp := cp w; gReverseLookupCache := gReverseLookupCache w;
                   trace := trace w ++ [Incr Proxy400Responses] |}) as (counts & Hc & Hq).
    exists counts. split; [exact Hq|]. unfold_M. rewrite Hc. cbn.
    rewrite <- ?app_assoc. reflexivity.
  - destruct (is_redirect cfg status).
    + destruct (copy_client_proxy env c pc cid
                  {| cp := cp w; gReverseLookupCache := gReverseLookupCache w;
                     trace := (trace w ++ [Incr Proxy300Responses]) ++ [Fprintf c status] |})
        as (counts & Hc & Hq).
      exists counts. split; [exact Hq|]. unfold_M.
      cbn [cp gReverseLookupCache trace]. rewrite Hc. cbn.
      rewrite <- ?app_assoc. reflexivity.
    + exists []. split; [reflexivity|].
      destruct (Contains status "200"); reflexivity.
Qed.



(** *** The walk over the upstreams *)

(** A turn that ends in "try the next proxy" has sent nothing to the client,
    and leaves [proxyConn] holding a [*net.TCPConn], nil or not: never the
    nil interface. *)
Lemma tryProxy_Next (cfg : config) (env : environment) (fd : nat)
    (ipv4 : string) (port cid : Z) (xff : string) (idx : nat) (spec : string)
    (v v' : loopVars) (w w' : world) :
  tryProxy cfg env (Client fd) ipv4 port cid xff idx spec v w = Some ((Next, v'), w') ->
  Conn_is_nil (proxyConn v') = false /\
  exists evs, trace w' = trace w ++ evs /\
              forallb (fun e => negb (touches (Client fd) e)) evs = true.
Proof.
  intros Hrun.
  destruct (dial cfg env spec w) as [[[[conn rid1] err] w1]|] eqn:Hd.
  - destruct (dial_closes _ _ _ _ _ _ _ _ Hd) as [(closes & Ht & Hcl) Hconn].
    apply (Close_quiet (Client fd)) in Hcl.
    destruct err.
    + rewrite (tryProxy_failed_dial _ _ _ _ _ _ _ _ _ _ _ _ _ _ Hd) in Hrun.
      injection Hrun as <- <-. split; [reflexivity|]. exists closes. auto.
    + destruct Hconn as [n ->].
      rewrite (tryProxy_connected cfg env (Client fd) ipv4 port cid xff idx spec v w w1
                 (Remote n) rid1 Hd) in Hrun.
      set (hv := sniPeek cfg env ipv4 idx _) in Hrun.
      set (pre := Fprintf (Remote n) _ :: _) in Hrun.
      assert (Hpre : forallb (fun e => negb (touches (Client fd) e)) pre = true).
      { subst pre. destruct (gSNIParsing cfg =? 1); reflexivity. }
      destruct (sniPeek_conn cfg env ipv4 idx
                  {| proxyConn := tcp (Some (Remote n)); rid := rid1; host := host v;
                     handshakeBuf := handshakeBuf v |}) as [Hc _].
      fold hv in Hc. cbn [proxyConn] in Hc.
      destruct (ReadString env (Remote n)) as [status|].
      * destruct (handleStatus_cases cfg env (Client fd) (Remote n) cid (snd hv) status
                    {| cp := cp w1; gReverseLookupCache := gReverseLookupCache w1;
                       trace := trace w1 ++ pre |} Hc) as (counts & _ & Hs).
        rewrite Hs in Hrun.
        destruct (Contains status "400"); [discriminate|].
        destruct (is_redirect cfg status); [discriminate|].
        destruct (Contains status "200"); [discriminate|].
        injection Hrun as <- <-. rewrite Hc. split; [reflexivity|].
        exists (closes ++ pre ++ [Incr ProxyNon200Responses]).
        cbn [trace]. rewrite Ht, <- !app_assoc. split; [reflexivity|].
        rewrite !forallb_app, Hcl, Hpre. reflexivity.
      * injection Hrun as <- <-. rewrite Hc. split; [reflexivity|].
        exists (closes ++ pre ++ [Incr ProxyNoConnectResponses]).
        cbn [trace]. rewrite Ht, <- !app_assoc. split; [reflexivity|].
        rewrite !forallb_app, Hcl, Hpre. reflexivity.
  - unfold tryProxy in Hrun. unfold_M. rewrite Hd in Hrun. discriminate.
Qed.

Lemma proxy_loop_Next (cfg : config) (env : environment) (fd : nat)
    (ipv4 : string) (port cid : Z) (xff : string) (proxies : list string) :
  forall (idx : nat) (v v' : loopVars) (w w' : world),
    proxy_loop cfg env (Client fd) ipv4 port cid xff idx proxies v w = Some ((Next, v'), w') ->
    (proxies <> [] -> Conn_is_nil (proxyConn v') = false) /\
    (Conn_is_nil (proxyConn v) = false -> Conn_is_nil (proxyConn v') = false) /\
    exists evs, trace w' = trace w ++ evs /\
                forallb (fun e => negb (touches (Client fd) e)) evs = true.
Proof.
  induction proxies as [|spec rest IH]; intros idx v v' w w' Hrun.
  - injection Hrun as <- <-. split; [congruence|]. split; [auto|].
    exists []. rewrite app_nil_r. auto.
  - simpl in Hrun. unfold mbind, M_bind in Hrun.
    destruct (tryProxy cfg env (Client fd) ipv4 port cid xff idx spec v w)
      as [[[ctl v1] w1]|] eqn:Ht; [|discriminate].
    destruct ctl; try (injection Hrun as Hc; discriminate).
    apply tryProxy_Next in Ht as (Hnil & evs1 & Ht1 & Hq1).
    apply IH in Hrun as (_ & Hkeep & evs2 & Ht2 & Hq2).
    split; [intros _; auto|]. split; [intros _; auto|].
    exists (evs1 ++ evs2). rewrite Ht2, Ht1, <- app_assoc. split; [reflexivity|].
    rewrite forallb_app, Hq1, Hq2. reflexivity.
Qed.

Lemma reverseLookup_trace (cfg : config) (env : environment) (ipv4 ipv4' : string)
    (w w' : world) :
  reverseLookup cfg env ipv4 w = Some (ipv4', w') -> trace w' = trace w /\ cp w' = cp w.
Proof.
  unfold reverseLookup. destruct (gReverseLookups cfg =? 1).
  - destruct (lookup (time_Now env) ipv4 (gReverseLookupCache w)) as [hostname c].
    destruct (negb (String.eqb hostname "")).
    + intros H; injection H as _ <-. auto.
    + destruct (net_LookupAddr env ipv4) as [[|name names]|].
      * intros H; injection H as _ <-. auto.
      * destruct (store (time_Now env) ipv4 name c); [|discriminate].
        intros H; injection H as _ <-. auto.
      * intros H; injection H as _ <-. auto.
  - intros H; injection H as _ <-. auto.
Qed.

(** C4: when the walk over a non-empty list of upstreams ends with no 200
    (and no response relayed), the handler writes the 503 message to the
    client, nothing else having been sent to it, and then closes the client
    connection. *)
Theorem all_upstreams_failed_503 (cfg : config) (env : environment) (fd : nat)
    (remoteAddr ipv4 : string) (port cid : Z) (v : loopVars) (w w2 : world) :
  RemoteAddr env (Client fd) = Some remoteAddr ->
  gProxyServers cfg <> [] ->
  proxy_walk cfg env (Client fd) remoteAddr ipv4 port cid w = Some ((Next, v), w2) ->
  exists evs,
    handleProxyConnection cfg env (Some (Client fd)) ipv4 port cid w =
      Some (tt, {| cp := cp w2; gReverseLookupCache := gReverseLookupCache w2;
                   trace := trace w ++ evs ++
                            [Fprintf (Client fd) ERR_NO_PROXIES; Close (Client fd)] |}) /\
    forallb (fun e => negb (touches (Client fd) e)) evs = true /\
    wire (Fprintf (Client fd) ERR_NO_PROXIES) =
      Some (Client fd,
            "HTTP/1.0 503 Service Unavailable" +:+ CRLF +:+
            "Server: go-any-proxy" +:+ CRLF +:+
            "X-AnyProxy-Error: ERR_NO_PROXIES" +:+ CRLF +:+ CRLF).
Proof.
  intros Haddr Hne Hwalk.
  assert (Hloop := Hwalk). unfold proxy_walk in Hloop. unfold mbind, M_bind in Hloop.
  destruct (reverseLookup cfg env ipv4 w) as [[ipv4' w1]|] eqn:Hrev; [|discriminate].
  apply reverseLookup_trace in Hrev as [Htr _].
  apply proxy_loop_Next in Hloop as (Hnil & _ & evs & Ht & Hq).
  specialize (Hnil Hne). rewrite Htr in Ht.
  exists evs. split; [|split; [exact Hq | reflexivity]].
  unfold handleProxyConnection. rewrite Haddr. unfold mbind at 1. unfold M_bind at 1.
  rewrite Hwalk. rewrite Hnil. unfold_M. cbn. rewrite Ht, <- !app_assoc. reflexivity.
Qed.

Lemma all_upstreams_failed_503_witness :
  let cfg := sample_cfg 0 0 in
  let env := sample_env None None ("", "") in
  let w2 := {| cp := {| pool := <[1 := tcp None]> ∅; idCounter := 1 |};
               gReverseLookupCache := NewReverseLookupCache; trace := [] |} in
  exists evs,
    handleProxyConnection cfg env (Some (Client 1)) "206.190.36.45" 8080 7 initial_world =
      Some (tt, {| cp := cp w2; gReverseLookupCache := gReverseLookupCache w2;
                   trace := trace initial_world ++ evs ++
                            [Fprintf (Client 1) ERR_NO_PROXIES; Close (Client 1)] |}) /\
    forallb (fun e => negb (touches (Client 1) e)) evs = true /\
    wire (Fprintf (Client 1) ERR_NO_PROXIES) =
      Some (Client 1,
            "HTTP/1.0 503 Service Unavailable" +:+ CRLF +:+
            "Server: go-any-proxy" +:+ CRLF +:+
            "X-AnyProxy-Error: ERR_NO_PROXIES" +:+ CRLF +:+ CRLF).
Proof.
  intros cfg env w2.
  apply (all_upstreams_failed_503 cfg env 1 "198.51.100.7:40000" "206.190.36.45" 8080 7
           {| proxyConn := tcp None; rid := 1; host := "198.51.100.7"; handshakeBuf := "" |}
           initial_world w2).
  - reflexivity.
  - discriminate.
  - reflexivity.
Defined.

(** The bytes of the 503 message, carriage returns and line feeds
    included. *)
Example ERR_NO_PROXIES_bytes :
  String.length ERR_NO_PROXIES = 92%nat /\
  Sprintf0 ERR_NO_PROXIES = Some ERR_NO_PROXIES /\
  Contains ERR_NO_PROXIES (CRLF +:+ CRLF) = true.
Proof. vm_compute. auto. Qed.

(** ** The reverse-lookup cache *)



Lemma cache_inv_new : cache_inv [] NewReverseLookupCache.
Proof.
  unfold cache_inv, NewReverseLookupCache. cbn [keys next hostnames length].
  split; [apply length_replicate|]. split; [reflexivity|].
  split; [intros j Hj; lia|].
  intros k [x Hx]. rewrite lookup_empty in Hx. discriminate.
Qed.

Lemma cache_inv_lookup (ks : list string) (c : reverseLookupCache) (now : Z)
    (ipv4 : string) :
  cache_inv ks c -> cache_inv ks (snd (lookup now ipv4 c)).
Proof.
  intros (Hlen & Hnext & Hring & Hdom). unfold lookup.
  destruct (hostnames c !! ipv4) as [hit|]; [|repeat split; auto].
  destruct (now <? expires hit); [repeat split; auto|].
  cbn [snd]. unfold cache_inv. cbn [keys next hostnames].
  repeat split; auto.
  intros k [x Hx]. apply lookup_delete_Some in Hx as [_ Hx]. apply Hdom. eauto.
Qed.

(** What [store] does to a cache that holds the keys [ks]. *)
Lemma cache_inv_store (ks : list string) (c : reverseLookupCache) (now : Z)
    (ipv4 hostname : string) :
  cache_inv ks c ->
  exists old,
    keys c !! Z.to_nat (Z.of_nat (length ks) mod 65536) = Some old /\
    let c' := {| hostnames :=
                   <[ipv4 := {| hostname := hostname; expires := now + time_Hour |}]>
                     (delete old (hostnames c));
                 keys := <[Z.to_nat (Z.of_nat (length ks) mod 65536) := ipv4]> (keys c);
                 next := Z.of_nat (length (ks ++ [ipv4])) mod 65536 |} in
    store now ipv4 hostname c = Some c' /\ cache_inv (ks ++ [ipv4]) c'.
Proof.
  intros (Hlen & Hnext & Hring & Hdom).
  set (n := Z.of_nat (length ks)) in *.
  assert (Hn : 0 <= n) by (subst n; lia).
  assert (Hslot : 0 <= n mod 65536 < 65536) by (apply Z.mod_pos_bound; lia).
  destruct (lookup_lt_is_Some_2 (keys c) (Z.to_nat (n mod 65536))) as [old Hold].
  { rewrite Hlen. lia. }
  exists old. split; [exact Hold|]. intros c'.
  assert (Hn' : Z.of_nat (length (ks ++ [ipv4])) = n + 1).
  { rewrite length_app. simpl. subst n. lia. }
  split.
  - unfold store. rewrite Hnext.
    destruct (n mod 65536 <? 0) eqn:Hneg; [apply Z.ltb_lt in Hneg; lia|].
    rewrite Hold. subst c'. do 2 f_equal.
    rewrite Hn'. change 65535 with (Z.ones 16). rewrite Z.land_ones by lia.
    change (2 ^ 16) with 65536.
    rewrite <- (Zplus_mod_idemp_l n 1 65536). reflexivity.
  - subst c'. unfold cache_inv. cbn [keys next hostnames].
    split; [rewrite length_insert; exact Hlen|]. split; [reflexivity|]. split.
    + intros j Hj Hlow. rewrite Hn' in Hj, Hlow.
      destruct (Z.eq_dec j n) as [->|Hjn].
      * rewrite list_lookup_insert_eq by (rewrite Hlen; lia).
        rewrite lookup_app_r by (subst n; lia).
        replace (Z.to_nat n - length ks)%nat with 0%nat by (subst n; lia).
        reflexivity.
      * assert (Hslots : j mod 65536 <> n mod 65536).
        { intros Heq.
          assert (Hd : (n - j) mod 65536 = 0).
          { rewrite Zminus_mod, Heq, Z.sub_diag. reflexivity. }
          apply Z.mod_divide in Hd; [|lia]. destruct Hd as [q Hq].
          assert (q <= 0 \/ 1 <= q) as [Hq0|Hq1] by lia; nia. }
        pose proof (Z.mod_pos_bound j 65536 ltac:(lia)).
        rewrite list_lookup_insert_ne by lia.
        rewrite lookup_app_l by (subst n; lia).
        apply Hring; lia.
    + intros k [x Hx].
      destruct (decide (k = ipv4)) as [->|Hk].
      * apply list_elem_of_lookup. exists (Z.to_nat (n mod 65536)).
        apply list_lookup_insert_eq. rewrite Hlen. lia.
      * rewrite lookup_insert_ne in Hx by congruence.
        apply lookup_delete_Some in Hx as [Hko Hx].
        assert (Hin : k ∈ keys c) by (apply Hdom; eauto).
        apply list_elem_of_lookup in Hin as [i Hi].
        apply list_elem_of_lookup. exists i.
        rewrite list_lookup_insert_ne; [exact Hi|].
        intros <-. rewrite Hold in Hi. congruence.
Qed.





(** A ring of a few stores: the second store of a key and an expired
    lookup. *)
Example cache_sample :
  let r := cache_run [OpStore 0 "10.0.0.1" "a.example"; OpLookup 5 "10.0.0.1";
                      OpLookup (time_Hour + 1) "10.0.0.1";
                      OpStore (time_Hour + 2) "10.0.0.1" "b.example"] in
  (fun c => (take 3 (keys c), next c, map_to_list (hostnames c))) <$> r =
  Some (["10.0.0.1"; "10.0.0.1"; ""], 2,
        [("10.0.0.1", {| hostname := "b.example"; expires := 2 * time_Hour + 2 |})]).
Proof. vm_compute. reflexivity. Qed.

Example sample_stores_3 :
  sample_stores 3 =
  [OpStore 0 "0" "host.example"; OpStore 1 "1" "host.example";
   OpStore 2 "2" "host.example"].
Proof. reflexivity. Qed.

(** After 65,536 stores of distinct keys the ring is full and the next
    store lands on slot 0, which holds the first key stored. *)
Example cache_full_ring :
  let ks := stored (sample_stores 65536) in
  Z.of_nat (length ks) = 65536 /\ ks !! 0%nat = Some "0" /\
  ks !! Z.to_nat 65535 = Some "65535".
Proof. vm_compute. auto. Qed.

(** * Further properties *)

(** ** The pool: ids *)

Lemma count_adds_app (ops1 ops2 : list poolOp) :
  count_adds (ops1 ++ ops2) = (count_adds ops1 + count_adds ops2)%nat.
Proof.
  induction ops1 as [|[conn|id] ops1 IH]; simpl; [reflexivity | rewrite IH; lia | exact IH].
Qed.

(** While the counter has not wrapped it counts the adds, and every id in
    the pool is one it has handed out. *)
Lemma pool_run_ids (ops : list poolOp) :
  Z.of_nat (count_adds ops) < 2 ^ 64 ->
  idCounter (pool_run ops) = Z.of_nat (count_adds ops) /\
  forall id, is_Some (pool (pool_run ops) !! id) -> 0 < id <= Z.of_nat (count_adds ops).
Proof.
  induction ops as [|op ops IH] using rev_ind; intros Hn.
  - split; [reflexivity|]. intros id [x Hx]. simpl in Hx.
    rewrite lookup_empty in Hx. discriminate.
  - rewrite count_adds_app in Hn |- *.
    unfold pool_run in *. rewrite fold_left_app. simpl.
    destruct IH as [Hc Hids]; [lia|].
    set (c := fold_left pool_step ops newClientPool) in *.
    destruct op as [conn|id]; simpl in *.
    + rewrite Hc. rewrite Z.mod_small by lia. split; [lia|].
      intros id [x Hx].
      destruct (decide (id = Z.of_nat (count_adds ops) + 1)) as [->|Hne]; [lia|].
      rewrite lookup_insert_ne in Hx by congruence.
      specialize (Hids id (ex_intro _ x Hx)). lia.
    + rewrite Nat.add_0_r. unfold pool_del.
      destruct (pool c !! id) eqn:Hl; simpl; [|auto].
      split; [exact Hc|]. intros j [x Hx].
      apply lookup_delete_Some in Hx as [_ Hx]. apply Hids. eauto.
Qed.

(** X1: as long as fewer than 2^64 - 1 connections have been added, [add]
    returns the counter plus one, an id that is not in the pool and is above
    every id in it, and the pool grows by one entry: ids are handed out in
    increasing order and never twice. *)
Theorem pool_ids_never_reused (ops : list poolOp) (conn : Conn) :
  Z.of_nat (count_adds ops) < 2 ^ 64 - 1 ->
  let c := pool_run ops in
  let id := fst (pool_add conn c) in
  idCounter c = Z.of_nat (count_adds ops) /\
  id = idCounter c + 1 /\
  pool c !! id = None /\
  (forall j, is_Some (pool c !! j) -> 0 < j < id) /\
  pool_size (snd (pool_add conn c)) = pool_size c + 1.
Proof.
  intros Hn c id.
  destruct (pool_run_ids ops) as [Hc Hids]; [lia|]. fold c in Hc, Hids.
  assert (Hid : id = idCounter c + 1).
  { subst id. simpl. rewrite Hc. apply Z.mod_small. lia. }
  assert (Hfresh : pool c !! id = None).
  { destruct (pool c !! id) eqn:Hl; [|reflexivity].
    specialize (Hids id (ex_intro _ _ Hl)). lia. }
  split; [exact Hc|]. split; [exact Hid|]. split; [exact Hfresh|]. split.
  - intros j Hj. specialize (Hids j Hj). lia.
  - unfold pool_size. simpl. fold id.
    rewrite map_size_insert_None by exact Hfresh. lia.
Qed.

Lemma pool_ids_never_reused_witness :
  let ops := [OpAdd (tcp (Some (Client 3))); OpAdd (tcp None); OpDel 1] in
  let c := pool_run ops in
  let id := fst (pool_add nilConn c) in
  idCounter c = Z.of_nat (count_adds ops) /\
  id = idCounter c + 1 /\
  pool c !! id = None /\
  (forall j, is_Some (pool c !! j) -> 0 < j < id) /\
  pool_size (snd (pool_add nilConn c)) = pool_size c + 1.
Proof.
  apply (pool_ids_never_reused
           [OpAdd (tcp (Some (Client 3))); OpAdd (tcp None); OpDel 1] nilConn).
  vm_compute. reflexivity.
Defined.

(** X2: [del] removes the entry of its id and nothing else, leaves the
    counter alone, does nothing when the id is absent, and doing it twice
    is doing it once. *)
Theorem pool_del_idempotent (id : Z) (c : clientPool) :
  pool (pool_del id c) !! id = None /\
  (forall j, j <> id -> pool (pool_del id c) !! j = pool c !! j) /\
  idCounter (pool_del id c) = idCounter c /\
  (pool c !! id = None -> pool_del id c = c) /\
  pool_del id (pool_del id c) = pool_del id c.
Proof.
  assert (Hgone : pool (pool_del id c) !! id = None).
  { unfold pool_del. destruct (pool c !! id) eqn:Hl; simpl;
      [apply lookup_delete_eq | exact Hl]. }
  split; [exact Hgone|]. split; [|split; [|split]].
  - intros j Hj. unfold pool_del. destruct (pool c !! id); simpl; [|reflexivity].
    apply lookup_delete_ne. congruence.
  - unfold pool_del. destruct (pool c !! id); reflexivity.
  - intros Hl. unfold pool_del. rewrite Hl. reflexivity.
  - unfold pool_del at 1. rewrite Hgone. reflexivity.
Qed.

(** X3: [add] maps its id to the connection and leaves the other entries as
    they were.  On a free id the pool grows by one and a [del] of that id
    gives the old entries back; on an id that is taken (the counter has
    wrapped) the entry is overwritten and the size stays. *)
Theorem pool_add_entry (conn : Conn) (c : clientPool) :
  let id := fst (pool_add conn c) in
  let c' := snd (pool_add conn c) in
  id = (idCounter c + 1) mod 2 ^ 64 /\
  idCounter c' = id /\
  pool c' !! id = Some conn /\
  (forall j, j <> id -> pool c' !! j = pool c !! j) /\
  (pool c !! id = None ->
   pool_size c' = pool_size c + 1 /\ pool (pool_del id c') = pool c) /\
  (is_Some (pool c !! id) -> pool_size c' = pool_size c).
Proof.
  intros id c'. subst id c'. simpl.
  set (id := (idCounter c + 1) mod 2 ^ 64).
  split; [reflexivity|]. split; [reflexivity|].
  split; [apply lookup_insert_eq|]. split; [|split].
  - intros j Hj. apply lookup_insert_ne. congruence.
  - intros Hfree. split.
    + unfold pool_size. simpl. rewrite map_size_insert_None by exact Hfree. lia.
    + unfold pool_del. simpl. rewrite lookup_insert_eq. simpl.
      rewrite delete_insert_eq. apply delete_id. exact Hfree.
  - intros Hx. unfold pool_size. simpl.
    rewrite map_size_insert_Some by exact Hx. reflexivity.
Qed.

Lemma pool_add_entry_witness :
  let c := pool_run [OpAdd (tcp (Some (Client 3)))] in
  let id := fst (pool_add (tcp None) c) in
  let c' := snd (pool_add (tcp None) c) in
  pool_size c' = pool_size c + 1 /\ pool (pool_del id c') = pool c.
Proof.
  intros c id c'.
  destruct (pool_add_entry (tcp None) c) as (_ & _ & _ & _ & Hfree & _).
  apply Hfree. vm_compute. reflexivity.
Defined.

(** ** The pool: what [gc] does to it *)

(** The loop of [gc] removes the first [n] ids it meets and closes those of
    them that hold a connection. *)
Lemma gc_loop_evicts (ids : list Z) :
  forall (n : nat) (w w' : world) (u : unit),
    gc_loop ids n w = Some (u, w') ->
    idCounter (cp w') = idCounter (cp w) /\
    gReverseLookupCache w' = gReverseLookupCache w /\
    exists evs,
      trace w' = trace w ++ evs /\
      (forall j, pool (cp w') !! j =
                 if decide (j ∈ take n ids) then None else pool (cp w) !! j) /\
      (forall e, e ∈ evs ->
                 exists j t, e = Close t /\ j ∈ take n ids /\
                             pool (cp w) !! j = Some (tcp (Some t))) /\
      (forall j t, j ∈ take n ids -> pool (cp w) !! j = Some (tcp (Some t)) ->
                   Close t ∈ evs).
Proof.
  induction ids as [|id ids IH]; intros n w w' u Hrun.
  - assert (Hw : w' = w).
    { destruct n; simpl in Hrun; [|discriminate]. injection Hrun as _ <-. reflexivity. }
    subst w'. split; [reflexivity|]. split; [reflexivity|].
    exists []. rewrite app_nil_r, take_nil. split; [reflexivity|].
    split; [|split].
    + intros j. destruct (decide (j ∈ [])) as [Hin|_]; [inversion Hin | reflexivity].
    + intros e He. inversion He.
    + intros j t Hj. inversion Hj.
  - destruct n as [|n].
    + injection Hrun as _ <-. split; [reflexivity|]. split; [reflexivity|].
      exists []. rewrite app_nil_r. simpl. split; [reflexivity|].
      split; [|split].
      * intros j. destruct (decide (j ∈ [])) as [Hin|_]; [inversion Hin | reflexivity].
      * intros e He. inversion He.
      * intros j t Hj. inversion Hj.
    + rewrite gc_loop_step in Hrun.
      assert (Hstep : forall (closed : list event) (w1 : world),
                 pool (cp w1) = delete id (pool (cp w)) ->
                 idCounter (cp w1) = idCounter (cp w) ->
                 gReverseLookupCache w1 = gReverseLookupCache w ->
                 trace w1 = trace w ++ closed ->
                 (forall e, e ∈ closed ->
                            exists t, e = Close t /\ pool (cp w) !! id = Some (tcp (Some t))) ->
                 (forall t, pool (cp w) !! id = Some (tcp (Some t)) -> Close t ∈ closed) ->
                 gc_loop ids n w1 = Some (u, w') ->
                 idCounter (cp w') = idCounter (cp w) /\
                 gReverseLookupCache w' = gReverseLookupCache w /\
                 exists evs,
                   trace w' = trace w ++ evs /\
                   (forall j, pool (cp w') !! j =
                              if decide (j ∈ take (S n) (id :: ids)) then None
                              else pool (cp w) !! j) /\
                   (forall e, e ∈ evs ->
                              exists j t, e = Close t /\ j ∈ take (S n) (id :: ids) /\
                                          pool (cp w) !! j = Some (tcp (Some t))) /\
                   (forall j t, j ∈ take (S n) (id :: ids) ->
                                pool (cp w) !! j = Some (tcp (Some t)) -> Close t ∈ evs)).
      { intros closed w1 Hp Hc Hr Ht Hcl1 Hcl2 Hrest.
        apply IH in Hrest as (Hc' & Hr' & evs & Ht' & Hpool & Hev1 & Hev2).
        split; [congruence|]. split; [congruence|].
        exists (closed ++ evs). rewrite Ht', Ht, <- app_assoc.
        split; [reflexivity|]. simpl take. split; [|split].
        - intros j. rewrite Hpool, Hp.
          destruct (decide (j ∈ take n ids)) as [Hin|Hnin].
          + rewrite decide_True by (right; exact Hin). reflexivity.
          + destruct (decide (j = id)) as [->|Hne].
            * rewrite decide_True by left. apply lookup_delete_eq.
            * rewrite decide_False.
              -- apply lookup_delete_ne. congruence.
              -- intros Hin. apply elem_of_cons in Hin as [?|?]; contradiction.
        - intros e He. apply elem_of_app in He as [He|He].
          + destruct (Hcl1 e He) as (t & -> & Hl). exists id, t.
            split; [reflexivity|]. split; [left | exact Hl].
          + destruct (Hev1 e He) as (j & t & -> & Hj & Hl).
            rewrite Hp in Hl. apply lookup_delete_Some in Hl as [_ Hl].
            exists j, t. split; [reflexivity|]. split; [right; exact Hj | exact Hl].
        - intros j t Hj Hl. apply elem_of_app.
          destruct (decide (j = id)) as [->|Hne].
          + left. apply Hcl2. exact Hl.
          + right. apply (Hev2 j t).
            * apply elem_of_cons in Hj as [?|?]; [contradiction | assumption].
            * rewrite Hp. rewrite lookup_delete_ne by congruence. exact Hl. }
      destruct (pool (cp w) !! id) as [[|[t|]]|] eqn:Hl; simpl in Hrun;
        [| |discriminate|].
      * refine (Hstep [] _ _ _ _ _ _ _ Hrun); try reflexivity.
        -- simpl. rewrite app_nil_r. reflexivity.
        -- intros e He. inversion He.
        -- intros t Ht. discriminate.
      * refine (Hstep [Close t] _ _ _ _ _ _ _ Hrun); try reflexivity.
        -- intros e He. apply list_elem_of_singleton in He as ->. eauto.
        -- intros t' Ht'. injection Ht' as <-. left.
      * refine (Hstep [] _ _ _ _ _ _ _ Hrun); try reflexivity.
        -- simpl. rewrite app_nil_r. reflexivity.
        -- intros e He. inversion He.
        -- intros t Ht. discriminate.
Qed.

Lemma closes_of_delete (id : Z) (p : gmap Z Conn) (ids : list Z) :
  id ∉ ids -> closes_of (delete id p) ids = closes_of p ids.
Proof.
  induction ids as [|j ids IH]; intros Hnin; [reflexivity|].
  apply not_elem_of_cons in Hnin as [Hne Hnin].
  unfold closes_of in *. cbn [omap list_omap].
  rewrite lookup_delete_ne by congruence. rewrite (IH Hnin). reflexivity.
Qed.

(** The loop of [gc], entry by entry: the entries it removes are visited
    once each, and each one that holds a connection is closed at its visit. *)
Lemma gc_loop_evicted (ids : list Z) :
  forall (n : nat) (w w' : world) (u : unit),
    gc_loop ids n w = Some (u, w') ->
    exists evicted,
      NoDup evicted /\
      (forall j, j ∈ evicted <-> j ∈ take n ids /\ is_Some (pool (cp w) !! j)) /\
      trace w' = trace w ++ closes_of (pool (cp w)) evicted.
Proof.
  induction ids as [|id ids IH]; intros n w w' u Hrun.
  - assert (Hw : w' = w).
    { destruct n; simpl in Hrun; [|discriminate]. injection Hrun as _ <-. reflexivity. }
    subst w'. exists []. split; [constructor|]. rewrite take_nil. split.
    + intros j. split; [intros H; inversion H | intros [H _]; inversion H].
    + cbn. rewrite app_nil_r. reflexivity.
  - destruct n as [|n].
    + injection Hrun as _ <-. exists []. split; [constructor|]. split.
      * intros j. split; [intros H; inversion H | intros [H _]; inversion H].
      * cbn. rewrite app_nil_r. reflexivity.
    + rewrite gc_loop_step in Hrun. cbn [take].
      destruct (pool (cp w) !! id) as [c|] eqn:Hl; simpl in Hrun.
      * assert (Hstep : forall (w1 : world),
                   pool (cp w1) = delete id (pool (cp w)) ->
                   trace w1 = trace w ++ closes_of (pool (cp w)) [id] ->
                   gc_loop ids n w1 = Some (u, w') ->
                   exists evicted,
                     NoDup evicted /\
                     (forall j, j ∈ evicted <->
                                j ∈ id :: take n ids /\ is_Some (pool (cp w) !! j)) /\
                     trace w' = trace w ++ closes_of (pool (cp w)) evicted).
        { intros w1 Hp Ht Hrest.
          apply IH in Hrest as (evicted & Hnd & Hmem & Ht').
          assert (Hnin : id ∉ evicted).
          { intros Hin. apply Hmem in Hin as [_ [x Hx]]. rewrite Hp in Hx.
            rewrite lookup_delete_eq in Hx. discriminate. }
          exists (id :: evicted). split; [apply NoDup_cons; split; assumption|]. split.
          - intros j. rewrite !elem_of_cons, Hmem, Hp. split.
            + intros [->|[Hj [x Hx]]].
              * split; [left; reflexivity | rewrite Hl; eauto].
              * apply lookup_delete_Some in Hx as [_ Hx]. split; [right; exact Hj | eauto].
            + intros [[->|Hj] [x Hx]]; [left; reflexivity|].
              destruct (decide (j = id)) as [->|Hne]; [left; reflexivity|].
              right. split; [exact Hj|]. rewrite lookup_delete_ne by congruence. eauto.
          - rewrite Ht', Ht, Hp, closes_of_delete by exact Hnin.
            rewrite <- app_assoc. f_equal. unfold closes_of. cbn [omap list_omap].
            destruct (pool (cp w) !! id) as [[|[t|]]|]; reflexivity. }
        destruct c as [|[t|]]; [| |discriminate].
        -- refine (Hstep _ _ _ Hrun); [reflexivity|].
           unfold closes_of. cbn [omap list_omap trace]. rewrite Hl, app_nil_r. reflexivity.
        -- refine (Hstep _ _ _ Hrun); [reflexivity|].
           unfold closes_of. cbn [omap list_omap trace]. rewrite Hl. reflexivity.
      * assert (Hp : delete id (pool (cp w)) = pool (cp w)) by (apply delete_id; exact Hl).
        apply IH in Hrun as (evicted & Hnd & Hmem & Ht').
        cbn [cp pool trace] in Hmem, Ht'. rewrite Hp in Hmem, Ht'.
        exists evicted. split; [exact Hnd|]. split; [|exact Ht'].
        intros j. rewrite Hmem, elem_of_cons. split.
        -- intros [Hj Hx]. split; [right; exact Hj | exact Hx].
        -- intros [[->|Hj] Hx]; [rewrite Hl in Hx; destruct Hx; discriminate|].
           split; assumption.
Qed.

(** X4: a [gc] that returns only removes entries: what is left maps the same
    ids to the same connections, the counter and the cache are untouched,
    and the events it adds are exactly one [Close] for each connection it
    removed from the pool: listing the removed entries once each, in the
    order of their removal, the events are the [Close] of each entry that
    held a connection, in that order, and nothing else. *)
Theorem gc_evicts_only (cfg : config) (env : environment) (w w' : world) (u : unit) :
  gc cfg env w = Some (u, w') ->
  pool (cp w') ⊆ pool (cp w) /\
  idCounter (cp w') = idCounter (cp w) /\
  gReverseLookupCache w' = gReverseLookupCache w /\
  exists evs,
    trace w' = trace w ++ evs /\
    (forall e, e ∈ evs ->
               exists j t, e = Close t /\ pool (cp w) !! j = Some (tcp (Some t)) /\
                           pool (cp w') !! j = None) /\
    (forall j t, pool (cp w) !! j = Some (tcp (Some t)) -> pool (cp w') !! j = None ->
                 Close t ∈ evs) /\
    exists evicted,
      NoDup evicted /\
      (forall j, j ∈ evicted <->
                 is_Some (pool (cp w) !! j) /\ pool (cp w') !! j = None) /\
      evs = closes_of (pool (cp w)) evicted.
Proof.
  unfold gc. destruct (pool_size (cp w) <? gMaxConn cfg).
  - intros H. injection H as _ <-. split; [reflexivity|].
    split; [reflexivity|]. split; [reflexivity|].
    exists []. rewrite app_nil_r. split; [reflexivity|]. split; [|split].
    + intros e He. inversion He.
    + intros j t Hl Hn. congruence.
    + exists []. split; [constructor|]. split; [|reflexivity].
      intros j. split; [intros H; inversion H|].
      intros [[x Hx] Hn]. congruence.
  - intros Hrun. pose proof (gc_loop_evicted _ _ _ _ _ Hrun) as (evicted & Hnd & Hmem & Hex).
    apply gc_loop_evicts in Hrun as (Hc & Hr & evs & Ht & Hpool & Hev1 & Hev2).
    split; [|split; [exact Hc|split; [exact Hr|]]].
    + apply map_subseteq_spec. intros j x Hx. rewrite Hpool in Hx.
      destruct (decide _); [discriminate | exact Hx].
    + exists evs. split; [exact Ht|]. split; [|split].
      * intros e He. destruct (Hev1 e He) as (j & t & -> & Hj & Hl).
        exists j, t. split; [reflexivity|]. split; [exact Hl|].
        rewrite Hpool. rewrite decide_True by exact Hj. reflexivity.
      * intros j t Hl Hn. apply (Hev2 j t); [|exact Hl].
        rewrite Hpool in Hn. destruct (decide _) as [Hin|_]; [exact Hin | congruence].
      * exists evicted. split; [exact Hnd|]. split.
        -- intros j. rewrite Hmem, Hpool. split.
           ++ intros [Hj Hx]. split; [exact Hx|]. rewrite decide_True by exact Hj. reflexivity.
           ++ intros [[x Hx] Hn]. split; [|eauto].
              destruct (decide _) as [Hin|_]; [exact Hin | congruence].
        -- rewrite Ht in Hex. apply app_inv_head in Hex. exact Hex.
Qed.

Lemma gc_evicts_only_witness :
  let cfg := {| gProxyServerSpec := ""; gDirects := ""; gProxyServers := [];
                gAuthProxyServers := ∅; gClientRedirects := 0; gReverseLookups := 0;
                gSNIParsing := 0; gMaxConn := 512 |} in
  let env := sample_env None None ("", "") in
  let w := {| cp := pool_run (map (fun n => OpAdd (tcp (Some (Remote n)))) (seq 0 512));
              gReverseLookupCache := {| hostnames := ∅; keys := []; next := 0 |};
              trace := [] |} in
  exists w',
    gc cfg env w = Some (tt, w') /\
    pool (cp w') ⊆ pool (cp w) /\
    idCounter (cp w') = idCounter (cp w) /\
    exists evicted,
      NoDup evicted /\
      (forall j, j ∈ evicted <->
                 is_Some (pool (cp w) !! j) /\ pool (cp w') !! j = None) /\
      trace w' = closes_of (pool (cp w)) evicted.
Proof.
  intros cfg env w.
  destruct (gc cfg env w) as [[[] w']|] eqn:Hrun.
  - exists w'. split; [reflexivity|].
    destruct (gc_evicts_only cfg env w w' tt Hrun)
      as (Hsub & Hc & _ & evs & Ht & _ & _ & evicted & Hnd & Hmem & ->).
    split; [exact Hsub|]. split; [exact Hc|].
    exists evicted. split; [exact Hnd|]. split; [exact Hmem | exact Ht].
  - exfalso. revert Hrun. vm_compute. discriminate.
Defined.

(** ** The cache: lookups *)

(** X5: a lookup never touches the ring or the entries of other keys; a hit
    leaves the cache as it is; and once a lookup has missed (no entry, an
    expired entry, which it deletes, or an empty host name), every later
    lookup of that key misses too, whatever the instant, until a store. *)
Theorem lookup_miss_sticks (now : Z) (ipv4 : string) (c : reverseLookupCache) :
  let h := fst (lookup now ipv4 c) in
  let c' := snd (lookup now ipv4 c) in
  keys c' = keys c /\
  next c' = next c /\
  (forall k, k <> ipv4 -> hostnames c' !! k = hostnames c !! k) /\
  (h <> "" -> c' = c) /\
  (h = "" -> forall later, fst (lookup later ipv4 c') = "" /\
                           keys (snd (lookup later ipv4 c')) = keys c).
Proof.
  intros h c'. subst h c'.
  destruct (hostnames c !! ipv4) as [hit|] eqn:Hl; [destruct (now <? expires hit) eqn:Hlive|].
  - assert (E : lookup now ipv4 c = (hostname hit, c))
      by (unfold lookup; rewrite Hl, Hlive; reflexivity).
    rewrite E. cbn [fst snd].
    split; [reflexivity|]. split; [reflexivity|]. split; [reflexivity|].
    split; [reflexivity|]. intros Hempty later. unfold lookup. rewrite Hl.
    destruct (later <? expires hit); cbn [fst snd keys];
      (split; [first [exact Hempty | reflexivity] | reflexivity]).
  - assert (E : lookup now ipv4 c =
                ("", {| hostnames := delete ipv4 (hostnames c); keys := keys c;
                        next := next c |}))
      by (unfold lookup; rewrite Hl, Hlive; reflexivity).
    rewrite E. cbn [fst snd keys next hostnames].
    split; [reflexivity|]. split; [reflexivity|].
    split; [intros k Hk; apply lookup_delete_ne; congruence|].
    split; [congruence|]. intros _ later. unfold lookup. cbn [hostnames].
    rewrite lookup_delete_eq. split; reflexivity.
  - assert (E : lookup now ipv4 c = ("", c)) by (unfold lookup; rewrite Hl; reflexivity).
    rewrite E. cbn [fst snd]. split; [reflexivity|]. split; [reflexivity|].
    split; [reflexivity|]. split; [reflexivity|].
    intros _ later. unfold lookup. rewrite Hl. split; reflexivity.
Qed.

Lemma lookup_miss_sticks_witness :
  let c := {| hostnames := {[ "10.0.0.1" := {| hostname := "a.example"; expires := 10 |} ]};
              keys := ["10.0.0.1"]; next := 0 |} in
  fst (lookup 11 "10.0.0.1" c) = "" /\
  fst (lookup 5 "10.0.0.1" (snd (lookup 11 "10.0.0.1" c))) = "" /\
  keys (snd (lookup 5 "10.0.0.1" (snd (lookup 11 "10.0.0.1" c)))) = keys c.
Proof.
  intros c.
  destruct (lookup_miss_sticks 11 "10.0.0.1" c) as (_ & _ & _ & _ & Hmiss).
  split; [vm_compute; reflexivity|].
  apply Hmiss. vm_compute. reflexivity.
Defined.

(** ** The cache in the handler *)

(** X6: on a cache that stores and lookups have made, the reverse lookup
    of the handler never panics and touches neither the pool nor the trace;
    when reverse lookups are off it returns the address and changes
    nothing. *)
Theorem reverseLookup_returns (cfg : config) (env : environment) (ipv4 : string)
    (ks : list string) (w : world) :
  cache_inv ks (gReverseLookupCache w) ->
  exists h w1 ks1,
    reverseLookup cfg env ipv4 w = Some (h, w1) /\
    cp w1 = cp w /\ trace w1 = trace w /\
    cache_inv ks1 (gReverseLookupCache w1) /\
    (gReverseLookups cfg <> 1 -> h = ipv4 /\ w1 = w).
Proof.
  intros Hinv. unfold reverseLookup.
  destruct (gReverseLookups cfg =? 1) eqn:Hon.
  - pose proof (cache_inv_lookup ks _ (time_Now env) ipv4 Hinv) as Hinv1.
    destruct (lookup (time_Now env) ipv4 (gReverseLookupCache w)) as [hostname0 c].
    cbn [snd] in Hinv1. apply Z.eqb_eq in Hon.
    destruct (negb (String.eqb hostname0 "")).
    + eexists _, _, ks. split; [reflexivity|]. cbn [cp trace gReverseLookupCache].
        split; [reflexivity|]. split; [reflexivity|]. split; [exact Hinv1|].
        intros Hoff. contradiction.
    + destruct (net_LookupAddr env ipv4) as [[|name names]|].
      * eexists _, _, ks. split; [reflexivity|]. cbn [cp trace gReverseLookupCache].
        split; [reflexivity|]. split; [reflexivity|]. split; [exact Hinv1|].
        intros Hoff. contradiction.
      * destruct (cache_inv_store ks c (time_Now env) ipv4 name Hinv1)
          as (old & _ & Hst & Hinv2).
        rewrite Hst. eexists _, _, (ks ++ [ipv4]). split; [reflexivity|].
        cbn [cp trace gReverseLookupCache].
        split; [reflexivity|]. split; [reflexivity|]. split; [exact Hinv2|].
        intros Hoff. contradiction.
      * eexists _, _, ks. split; [reflexivity|]. cbn [cp trace gReverseLookupCache].
        split; [reflexivity|]. split; [reflexivity|]. split; [exact Hinv1|].
        intros Hoff. contradiction.
  - exists ipv4, w, ks. split; [reflexivity|]. split; [reflexivity|].
    split; [reflexivity|]. split; [exact Hinv|]. intros _. split; reflexivity.
Qed.

Lemma reverseLookup_returns_witness :
  exists h w1 ks1,
    reverseLookup (sample_cfg 0 0) (sample_env None None ("", "")) "206.190.36.45"
      initial_world = Some (h, w1) /\
    cp w1 = cp initial_world /\ trace w1 = trace initial_world /\
    cache_inv ks1 (gReverseLookupCache w1) /\
    (gReverseLookups (sample_cfg 0 0) <> 1 -> h = "206.190.36.45" /\ w1 = initial_world).
Proof.
  apply (reverseLookup_returns (sample_cfg 0 0) (sample_env None None ("", ""))
           "206.190.36.45" [] initial_world).
  apply cache_inv_new.
Defined.

(** X7: with reverse lookups on, a name that DNS gave for a missed address
    is stored, and for the next hour the handler gets the same name from
    the cache, whatever DNS would answer then, the cache staying as it
    is. *)
Theorem reverseLookup_caches (cfg : config) (env : environment) (ipv4 name : string)
    (names ks : list string) (w : world) :
  gReverseLookups cfg = 1 ->
  cache_inv ks (gReverseLookupCache w) ->
  fst (lookup (time_Now env) ipv4 (gReverseLookupCache w)) = "" ->
  net_LookupAddr env ipv4 = Some (name :: names) ->
  name <> "" ->
  exists w1,
    reverseLookup cfg env ipv4 w = Some (name, w1) /\
    hostnames (gReverseLookupCache w1) !! ipv4 =
      Some {| hostname := name; expires := time_Now env + time_Hour |} /\
    forall env',
      time_Now env' < time_Now env + time_Hour ->
      reverseLookup cfg env' ipv4 w1 = Some (name, w1).
Proof.
  intros Hon Hinv Hmiss Hdns Hname. unfold reverseLookup at 1.
  apply Z.eqb_eq in Hon. rewrite Hon.
  pose proof (cache_inv_lookup ks _ (time_Now env) ipv4 Hinv) as Hinv1.
  destruct (lookup (time_Now env) ipv4 (gReverseLookupCache w)) as [hostname0 c].
  cbn [fst] in Hmiss. subst hostname0. cbn [snd] in Hinv1.
  change (negb (String.eqb "" "")) with false. cbv iota. rewrite Hdns.
  destruct (cache_inv_store ks c (time_Now env) ipv4 name Hinv1)
    as (old & _ & Hst & _).
  rewrite Hst. eexists. split; [reflexivity|]. cbn [gReverseLookupCache hostnames].
  split; [apply lookup_insert_eq|].
  intros env' Hnow. unfold reverseLookup. rewrite Hon.
  unfold lookup. cbn [gReverseLookupCache hostnames cp trace].
  rewrite lookup_insert_eq. cbn [expires hostname].
  apply Z.ltb_lt in Hnow. rewrite Hnow.
  destruct (String.eqb name "") eqn:He; [apply String.eqb_eq in He; contradiction|].
  reflexivity.
Qed.

Lemma reverseLookup_caches_witness :
  let cfg := {| gProxyServerSpec := "10.0.0.9:3128"; gDirects := "";
                gProxyServers := ["10.0.0.9:3128"]; gAuthProxyServers := ∅;
                gClientRedirects := 0; gReverseLookups := 1; gSNIParsing := 0;
                gMaxConn := 4096 |} in
  let env := {| net_ParseIP := fun _ => [];
                net_ParseCIDR := fun _ => None;
                IP_Equal := fun _ _ => false;
                IPNet_Contains := fun _ _ => false;
                net_SplitHostPort := fun _ => None;
                net_ResolveIPAddr := fun _ => None;
                strconv_Atoi := fun _ => None;
                net_LookupAddr := fun _ => Some ["host.example."];
                net_DialTCP := fun _ _ => None;
                RemoteAddr := fun _ => None;
                ReadString := fun _ => None;
                io_Copy := fun _ _ => None;
                extractSNI := fun _ => ("", "");
                conn_File := fun _ => false;
                GetsockoptIPv6Mreq := fun _ => None;
                net_FileConn := fun _ => FileConnErr;
                rand_Shuffle := fun ids => ids;
                time_Now := 0 |} in
  exists w1,
    reverseLookup cfg env "206.190.36.45" initial_world = Some ("host.example.", w1) /\
    hostnames (gReverseLookupCache w1) !! "206.190.36.45" =
      Some {| hostname := "host.example."; expires := time_Now env + time_Hour |} /\
    forall env',
      time_Now env' < time_Now env + time_Hour ->
      reverseLookup cfg env' "206.190.36.45" w1 = Some ("host.example.", w1).
Proof.
  intros cfg env.
  apply (reverseLookup_caches cfg env "206.190.36.45" "host.example." [] [] initial_world).
  - reflexivity.
  - apply cache_inv_new.
  - reflexivity.
  - reflexivity.
  - discriminate.
Defined.

(** ** The original destination: failures and the way back *)

Lemma Split_char_without (sep : ascii) (s : string) :
  forallb (fun c => negb (Ascii.eqb c sep)) (list_ascii_of_string s) = true ->
  Split_char sep s = [s].
Proof.
  induction s as [|c s IH]; simpl; intros H; [reflexivity|].
  apply andb_true_iff in H as [Hc Hs].
  destruct (Ascii.eqb c sep); [discriminate|]. rewrite (IH Hs). reflexivity.
Qed.

Lemma Split_char_app (sep : ascii) (a b : string) :
  forallb (fun c => negb (Ascii.eqb c sep)) (list_ascii_of_string a) = true ->
  Split_char sep (a +:+ String sep b) = a :: Split_char sep b.
Proof.
  induction a as [|c a IH]; intros H.
  - change ("" +:+ String sep b) with (String sep b). simpl.
    rewrite Ascii.eqb_refl. reflexivity.
  - simpl in H. apply andb_true_iff in H as [Hc Hs].
    rewrite append_cons. simpl.
    destruct (Ascii.eqb c sep); [discriminate|]. rewrite (IH Hs). reflexivity.
Qed.

Lemma digits_without (c : ascii) (l : list ascii) :
  is_digit c = false ->
  forallb is_digit l = true ->
  forallb (fun d => negb (Ascii.eqb d c)) l = true.
Proof.
  intros Hc. induction l as [|d l IH]; simpl; intros H; [reflexivity|].
  apply andb_true_iff in H as [Hd Hl]. rewrite (IH Hl), andb_true_r.
  destruct (Ascii.eqb d c) eqn:E; [|reflexivity].
  apply Ascii.eqb_eq in E. subst d. congruence.
Qed.

(** X8: the decoding of SO_ORIGINAL_DST can be undone.  The port is a 16-bit
    number whose high and low bytes are bytes 2 and 3; the address splits
    at its dots into four numerals whose values are bytes 4 to 7; and the
    address holds no ['%']. *)
Theorem decodeOriginalDst_roundtrip (Multiaddr : list Z) :
  length Multiaddr = 16%nat ->
  Forall (fun b => 0 <= b < 256) Multiaddr ->
  exists ipv4 port s4 s5 s6 s7,
    decodeOriginalDst Multiaddr = Some (ipv4, port) /\
    0 <= port < 65536 /\
    port / 256 = nth 2 Multiaddr 0 /\
    port mod 256 = nth 3 Multiaddr 0 /\
    Split_char "."%char ipv4 = [s4; s5; s6; s7] /\
    dec_value (list_ascii_of_string s4) = nth 4 Multiaddr 0 /\
    dec_value (list_ascii_of_string s5) = nth 5 Multiaddr 0 /\
    dec_value (list_ascii_of_string s6) = nth 6 Multiaddr 0 /\
    dec_value (list_ascii_of_string s7) = nth 7 Multiaddr 0 /\
    plain ipv4 = true.
Proof.
  intros Hlen Hbytes.
  do 8 (destruct Multiaddr as [|? Multiaddr]; [discriminate Hlen|]).
  repeat match goal with
         | H : Forall _ (_ :: _) |- _ => apply Forall_cons in H; destruct H as [? H]
         end.
  destruct (decodeOriginalDst_bytes z z0 z1 z2 z3 z4 z5 z6 Multiaddr)
    as (s4 & s5 & s6 & s7 & Hdec & D4 & D5 & D6 & D7); try assumption.
  destruct D4 as (_ & G4 & V4 & _), D5 as (_ & G5 & V5 & _),
           D6 as (_ & G6 & V6 & _), D7 as (_ & G7 & V7 & _).
  exists (s4 +:+ "." +:+ s5 +:+ "." +:+ s6 +:+ "." +:+ s7), (z1 * 256 + z2), s4, s5, s6, s7.
  cbn [nth].
  split; [exact Hdec|]. split; [lia|].
  split; [rewrite Z.div_add_l by lia; rewrite Z.div_small by lia; lia|].
  split; [rewrite Z.add_comm, Z.mod_add by lia; apply Z.mod_small; lia|].
  split.
  - change (s4 +:+ "." +:+ s5 +:+ "." +:+ s6 +:+ "." +:+ s7)
      with (s4 +:+ String "."%char (s5 +:+ String "."%char (s6 +:+ String "."%char s7))).
    rewrite !Split_char_app by (apply digits_without; [reflexivity | assumption]).
    rewrite Split_char_without by (apply digits_without; [reflexivity | assumption]).
    reflexivity.
  - split; [exact V4|]. split; [exact V5|]. split; [exact V6|]. split; [exact V7|].
    rewrite !plain_app.
    unfold plain at 1 3 5 7.
    rewrite !(digits_without "%"%char) by (try reflexivity; assumption).
    reflexivity.
Qed.

Lemma decodeOriginalDst_roundtrip_witness :
  exists ipv4 port s4 s5 s6 s7,
    decodeOriginalDst sample_Multiaddr = Some (ipv4, port) /\
    0 <= port < 65536 /\
    port / 256 = nth 2 sample_Multiaddr 0 /\
    port mod 256 = nth 3 sample_Multiaddr 0 /\
    Split_char "."%char ipv4 = [s4; s5; s6; s7] /\
    dec_value (list_ascii_of_string s4) = nth 4 sample_Multiaddr 0 /\
    dec_value (list_ascii_of_string s5) = nth 5 sample_Multiaddr 0 /\
    dec_value (list_ascii_of_string s6) = nth 6 sample_Multiaddr 0 /\
    dec_value (list_ascii_of_string s7) = nth 7 sample_Multiaddr 0 /\
    plain ipv4 = true.
Proof.
  apply decodeOriginalDst_roundtrip.
  - reflexivity.
  - unfold sample_Multiaddr. repeat (apply Forall_cons; split; [lia|]). constructor.
Defined.

(** X9: [getOriginalDst] always returns and never touches the pool.  With
    an error it returns no address, port 0 and no connection.  Once
    [File()] has succeeded it has closed the connection it was given,
    whether or not it goes on to return a replacement; before that it has
    done nothing. *)
Theorem getOriginalDst_outcomes (env : environment) (clientConn : option tcpConn)
    (w : world) :
  (forall c Multiaddr,
      clientConn = Some c -> GetsockoptIPv6Mreq env c = Some Multiaddr ->
      length Multiaddr = 16%nat /\ Forall (fun b => 0 <= b < 256) Multiaddr) ->
  exists ipv4 port newTCPConn err w',
    getOriginalDst env clientConn w = Some ((ipv4, port, newTCPConn, err), w') /\
    cp w' = cp w /\
    gReverseLookupCache w' = gReverseLookupCache w /\
    (err = true -> ipv4 = "" /\ port = 0 /\ newTCPConn = None) /\
    (err = false -> is_Some newTCPConn) /\
    match clientConn with
    | None => trace w' = trace w
    | Some c =>
        if bool_decide (is_Some (RemoteAddr env c)) && conn_File env c
        then trace w' = trace w ++ [Close c]
        else trace w' = trace w
    end.
Proof.
  intros Hbytes. unfold getOriginalDst.
  destruct clientConn as [c|].
  - destruct (RemoteAddr env c) as [a|] eqn:Ha.
    + rewrite bool_decide_true by eauto. cbn [andb].
      destruct (conn_File env c) eqn:Hf; cbn [negb].
      * unfold_M.
        destruct (GetsockoptIPv6Mreq env c) as [Multiaddr|] eqn:Hopt.
        -- destruct (Hbytes c Multiaddr eq_refl Hopt) as [Hlen Hb].
           destruct (net_FileConn env c) as [| |fd].
           ++ eexists _, _, _, _, _. split; [reflexivity|]. cbn. repeat split; auto.
              discriminate.
           ++ eexists _, _, _, _, _. split; [reflexivity|]. cbn. repeat split; auto.
              discriminate.
           ++ destruct (decodeOriginalDst_roundtrip Multiaddr Hlen Hb)
                as (ipv4 & port & ? & ? & ? & ? & Hdec & _).
              rewrite Hdec.
              eexists _, _, _, _, _. split; [reflexivity|]. cbn. repeat split; eauto;
                discriminate.
        -- eexists _, _, _, _, _. split; [reflexivity|]. cbn. repeat split; auto.
           discriminate.
      * eexists _, _, _, _, _. split; [reflexivity|]. cbn. repeat split; auto.
        discriminate.
    + rewrite bool_decide_false by (intros [? ?]; discriminate). cbn [andb].
      eexists _, _, _, _, _. split; [reflexivity|]. cbn. repeat split; auto.
      discriminate.
  - eexists _, _, _, _, _. split; [reflexivity|]. cbn. repeat split; auto.
    discriminate.
Qed.

Lemma getOriginalDst_outcomes_witness :
  let env := sample_env None None ("", "") in
  exists ipv4 port newTCPConn err w',
    getOriginalDst env (Some (Client 0)) initial_world =
      Some ((ipv4, port, newTCPConn, err), w') /\
    cp w' = cp initial_world /\
    gReverseLookupCache w' = gReverseLookupCache initial_world /\
    (err = true -> ipv4 = "" /\ port = 0 /\ newTCPConn = None) /\
    (err = false -> is_Some newTCPConn) /\
    (if bool_decide (is_Some (RemoteAddr env (Client 0))) && conn_File env (Client 0)
     then trace w' = trace initial_world ++ [Close (Client 0)]
     else trace w' = trace initial_world).
Proof.
  intros env.
  apply (getOriginalDst_outcomes env (Some (Client 0)) initial_world).
  intros c Multiaddr _ Hopt. injection Hopt as <-. split; [reflexivity|].
  unfold sample_Multiaddr. repeat (apply Forall_cons; split; [lia|]). constructor.
Defined.

(** ** The copiers *)

(** The counters [copy] increments for what [io.Copy] ended with. *)
Lemma copy_live (env : environment) (d s : tcpConn) (dstname srcname : string)
    (cid : Z) (w : world) :
  exists counts,
    copy env (tcp (Some d)) (tcp (Some s)) dstname srcname cid w =
      Some (tt, {| cp := pool_del cid (cp w);
                   gReverseLookupCache := gReverseLookupCache w;
                   trace := trace w ++ [IoCopy d s] ++ counts ++ [Close d; Close s] |}) /\
    (length counts <= 1)%nat /\
    (forall e, e ∈ counts -> exists k, e = Incr k) /\
    (srcname <> "proxyserver" -> srcname <> "directserver" -> counts = []) /\
    (io_Copy env d s = None -> counts = []).
Proof.
  exists (match io_Copy env d s with
          | Some op =>
              (if String.eqb op "read" then
                 (if String.eqb srcname "proxyserver" then [Incr ProxyServerReadErr] else [])
                 ++ (if String.eqb srcname "directserver" then [Incr DirectServerReadErr] else [])
               else []) ++
              (if String.eqb op "write" then
                 (if String.eqb srcname "proxyserver" then [Incr ProxyServerWriteErr] else [])
                 ++ (if String.eqb srcname "directserver" then [Incr DirectServerWriteErr] else [])
               else [])
          | None => []
          end).
  unfold copy. cbn [Conn_is_nil deref]. unfold_M.
  destruct (io_Copy env d s) as [op|].
  - destruct (String.eqb op "read") eqn:Hr, (String.eqb op "write") eqn:Hw,
      (String.eqb srcname "proxyserver") eqn:Hp,
      (String.eqb srcname "directserver") eqn:Hd;
      try (apply String.eqb_eq in Hr, Hw; congruence);
      try (apply String.eqb_eq in Hp, Hd; congruence);
      (split; [cbn; rewrite <- ?app_assoc; reflexivity|]);
      (split; [simpl; lia|]);
      (split; [intros e He; simpl in He;
               repeat (apply elem_of_cons in He as [->|He]; [eauto|]); inversion He|]);
      (split; [intros Hnp Hnd;
               try (apply String.eqb_eq in Hp; contradiction);
               try (apply String.eqb_eq in Hd; contradiction); reflexivity|]);
      discriminate.
  - cbn. rewrite <- ?app_assoc.
    split; [reflexivity|]. split; [simpl; lia|].
    split; [intros e He; inversion He|]. split; reflexivity.
Qed.

(** X10: a copier whose two connections are live always ends by removing
    its id from the pool and closing both connections, destination first,
    whatever [io.Copy] returned; it counts at most one error, and none when
    the source is the client.  A copier handed a nil interface does
    nothing at all: its id stays in the pool. *)
Theorem copy_releases (env : environment) (d s : tcpConn) (dstname srcname : string)
    (cid : Z) (w : world) :
  (exists counts,
      copy env (tcp (Some d)) (tcp (Some s)) dstname srcname cid w =
        Some (tt, {| cp := pool_del cid (cp w);
                     gReverseLookupCache := gReverseLookupCache w;
                     trace := trace w ++ [IoCopy d s] ++ counts ++ [Close d; Close s] |}) /\
      (length counts <= 1)%nat /\
      (forall e, e ∈ counts -> exists k, e = Incr k) /\
      (srcname <> "proxyserver" -> srcname <> "directserver" -> counts = []) /\
      (io_Copy env d s = None -> counts = [])) /\
  (forall src, copy env nilConn src dstname srcname cid w = Some (tt, w)) /\
  (forall dst, copy env dst nilConn dstname srcname cid w = Some (tt, w)).
Proof.
  split; [apply copy_live|]. split.
  - intros src. reflexivity.
  - intros dst. unfold copy. destruct dst; reflexivity.
Qed.

(** ** The dialer and the pool *)

(** Every way [dial] returns. *)
Lemma dial_inv (cfg : config) (env : environment) (spec : string) (w w' : world)
    (conn : option tcpConn) (rid1 : Z) (err : bool) :
  dial cfg env spec w = Some ((conn, rid1, err), w') ->
  (dial_target env spec = None /\ w' = w /\ conn = None /\ rid1 = 0 /\ err = true) \/
  (exists remoteAddr portInt u w1,
      dial_target env spec = Some (remoteAddr, portInt) /\
      gc cfg env w = Some (u, w1) /\
      conn = Remote <$> net_DialTCP env remoteAddr portInt /\
      err = bool_decide (conn = None) /\
      rid1 = (idCounter (cp w1) + 1) mod 2 ^ 64 /\
      pool (cp w') = <[rid1 := tcp conn]> (pool (cp w1)) /\
      gReverseLookupCache w' = gReverseLookupCache w1 /\
      trace w' = trace w1).
Proof.
  intros Hrun.
  destruct (dial_target env spec) as [[remoteAddr portInt]|] eqn:Ht.
  - right. destruct (gc cfg env w) as [[u w1]|] eqn:Hgc.
    + rewrite (dial_connecting cfg env spec remoteAddr portInt w w1 u Ht Hgc) in Hrun.
      injection Hrun as <- <- <- <-.
      exists remoteAddr, portInt, u, w1. repeat split; reflexivity.
    + exfalso. revert Hrun Ht. unfold dial, dial_target.
      destruct (net_SplitHostPort env spec) as [[host0 port0]|]; [|discriminate].
      destruct (net_ResolveIPAddr env host0); [|discriminate].
      destruct (strconv_Atoi env port0); [|discriminate].
      unfold_M. rewrite Hgc. discriminate.
  - left. rewrite dial_unresolved in Hrun by exact Ht.
    injection Hrun as <- <- <- <-. repeat split; reflexivity.
Qed.

(** X11: an upstream that the walk passes over stays in the pool.  When a
    turn of the loop ends in "try the next proxy" after a dial that got as
    far as the TCP connect, the id that dial registered still maps to its
    connection (nil after a refused connect), and the turn has closed
    nothing since the dial: a connected upstream is abandoned open. *)
Theorem passed_over_upstream_stays_registered (cfg : config) (env : environment)
    (fd : nat) (ipv4 : string) (port cid : Z) (xff : string) (idx : nat)
    (spec : string) (v v' : loopVars) (w w' : world) :
  tryProxy cfg env (Client fd) ipv4 port cid xff idx spec v w = Some ((Next, v'), w') ->
  is_Some (dial_target env spec) ->
  exists conn err w1 evs,
    dial cfg env spec w = Some ((conn, rid v', err), w1) /\
    proxyConn v' = tcp conn /\
    pool (cp w') = pool (cp w1) /\
    pool (cp w') !! rid v' = Some (tcp conn) /\
    trace w' = trace w1 ++ evs /\
    forallb (fun e => negb (is_Close e)) evs = true.
Proof.
  intros Hrun [target Htarget].
  destruct (dial cfg env spec w) as [[[[conn rid1] err] w1]|] eqn:Hd.
  - assert (Hreg : pool (cp w1) !! rid1 = Some (tcp conn)).
    { destruct (dial_inv _ _ _ _ _ _ _ _ Hd)
        as [(Hnone & _) | (? & ? & ? & ? & _ & _ & _ & _ & _ & Hp & _)].
      - congruence.
      - rewrite Hp. apply lookup_insert_eq. }
    destruct (dial_closes _ _ _ _ _ _ _ _ Hd) as [_ Hconn].
    destruct err.
    + rewrite (tryProxy_failed_dial _ _ _ _ _ _ _ _ _ _ _ _ _ _ Hd) in Hrun.
      injection Hrun as <- <-. cbn [rid proxyConn].
      exists conn, true, w1, []. rewrite app_nil_r. repeat split; auto.
    + destruct Hconn as [n ->].
      rewrite (tryProxy_connected cfg env (Client fd) ipv4 port cid xff idx spec v w w1
                 (Remote n) rid1 Hd) in Hrun.
      set (hv := sniPeek cfg env ipv4 idx _) in Hrun.
      set (pre := Fprintf (Remote n) _ :: _) in Hrun.
      assert (Hpre : forallb (fun e => negb (is_Close e)) pre = true).
      { subst pre. destruct (gSNIParsing cfg =? 1); reflexivity. }
      destruct (sniPeek_conn cfg env ipv4 idx
                  {| proxyConn := tcp (Some (Remote n)); rid := rid1; host := host v;
                     handshakeBuf := handshakeBuf v |}) as [Hc Hr].
      fold hv in Hc, Hr. cbn [proxyConn rid] in Hc, Hr.
      destruct (ReadString env (Remote n)) as [status|].
      * destruct (handleStatus_cases cfg env (Client fd) (Remote n) cid (snd hv) status
                    {| cp := cp w1; gReverseLookupCache := gReverseLookupCache w1;
                       trace := trace w1 ++ pre |} Hc) as (counts & _ & Hs).
        rewrite Hs in Hrun.
        destruct (Contains status "400"); [discriminate|].
        destruct (is_redirect cfg status); [discriminate|].
        destruct (Contains status "200"); [discriminate|].
        injection Hrun as <- <-. rewrite Hc, Hr.
        exists (Some (Remote n)), false, w1, (pre ++ [Incr ProxyNon200Responses]).
        cbn [cp trace]. rewrite <- app_assoc, forallb_app, Hpre.
        repeat split; auto.
      * injection Hrun as <- <-. rewrite Hc, Hr.
        exists (Some (Remote n)), false, w1, (pre ++ [Incr ProxyNoConnectResponses]).
        cbn [cp trace]. rewrite <- app_assoc, forallb_app, Hpre.
        repeat split; auto.
  - unfold tryProxy in Hrun. unfold_M. rewrite Hd in Hrun. discriminate.
Qed.

Lemma passed_over_upstream_stays_registered_witness :
  let cfg := sample_cfg 0 0 in
  let env := sample_env (Some 5%nat) (Some ("HTTP/1.0 502 Bad Gateway" +:+ CRLF)) ("", "") in
  let v := {| proxyConn := nilConn; rid := 0; host := "198.51.100.7"; handshakeBuf := "" |} in
  let w := {| cp := newClientPool;
              gReverseLookupCache := {| hostnames := ∅; keys := []; next := 0 |};
              trace := [] |} in
  exists v' w' conn err w1 evs,
    tryProxy cfg env (Client 1) "206.190.36.45" 8080 7 "" 0 "10.0.0.9:3128" v w
      = Some ((Next, v'), w') /\
    dial cfg env "10.0.0.9:3128" w = Some ((conn, rid v', err), w1) /\
    proxyConn v' = tcp conn /\
    pool (cp w') = pool (cp w1) /\
    pool (cp w') !! rid v' = Some (tcp conn) /\
    trace w' = trace w1 ++ evs /\
    forallb (fun e => negb (is_Close e)) evs = true.
Proof.
  intros cfg env v w.
  destruct (tryProxy cfg env (Client 1) "206.190.36.45" 8080 7 "" 0 "10.0.0.9:3128" v w)
    as [[[[| |] v'] w']|] eqn:Hrun;
    try (exfalso; revert Hrun; vm_compute; discriminate).
  exists v', w'.
  destruct (passed_over_upstream_stays_registered cfg env 1 "206.190.36.45" 8080 7 "" 0
              "10.0.0.9:3128" v v' w w' Hrun)
    as (conn & err & w1 & evs & H).
  - eexists. reflexivity.
  - exists conn, err, w1, evs. split; [reflexivity | exact H].
Defined.

(** ** Splicing *)

Lemma pool_del_lookup (id j : Z) (c : clientPool) :
  pool (pool_del id c) !! j = if decide (j = id) then None else pool c !! j.
Proof.
  unfold pool_del. destruct (decide (j = id)) as [->|Hne].
  - destruct (pool c !! id) eqn:Hl; simpl; [apply lookup_delete_eq | exact Hl].
  - destruct (pool c !! id); simpl; [|reflexivity].
    apply lookup_delete_ne. congruence.
Qed.

(** Two copiers over the same pair of live connections, one in each
    direction, run one after the other: both ids leave the pool and both
    connections are closed. *)
Lemma run_pair (env : environment) (a b : tcpConn) (n1 n2 n3 n4 : string)
    (id1 id2 : Z) (w : world) :
  exists w4,
    run_all env [Go (tcp (Some a)) (tcp (Some b)) n1 n2 id1;
                 Go (tcp (Some b)) (tcp (Some a)) n3 n4 id2] w = Some (tt, w4) /\
    (forall j, pool (cp w4) !! j =
               if decide (j = id1 \/ j = id2) then None else pool (cp w) !! j) /\
    idCounter (cp w4) = idCounter (cp w) /\
    Close a ∈ trace w4 /\ Close b ∈ trace w4.
Proof.
  destruct (copy_live env a b n1 n2 id1 w) as (counts1 & Hc1 & _).
  set (w1 := {| cp := pool_del id1 (cp w); gReverseLookupCache := gReverseLookupCache w;
                trace := trace w ++ [IoCopy a b] ++ counts1 ++ [Close a; Close b] |}) in Hc1.
  destruct (copy_live env b a n3 n4 id2 w1) as (counts2 & Hc2 & _).
  eexists. split.
  - cbn [run_all run_go]. unfold mbind, M_bind. rewrite Hc1, Hc2. reflexivity.
  - cbn [cp trace]. split; [|split; [|split]].
    + intros j. rewrite !pool_del_lookup. subst w1. cbn [cp].
      rewrite pool_del_lookup.
      destruct (decide (j = id2)), (decide (j = id1)), (decide (j = id1 \/ j = id2));
        try reflexivity; tauto.
    + subst w1. unfold pool_del. cbn [cp].
      destruct (pool (cp w) !! id1); cbn [idCounter pool];
        match goal with
        | |- context [?m !! id2] => destruct (m !! id2); reflexivity
        end.
    + subst w1. cbn [trace]. rewrite !elem_of_app. left. right. right. right.
      rewrite elem_of_cons. left. reflexivity.
    + subst w1. cbn [trace]. rewrite !elem_of_app. left. right. right. right.
      rewrite !elem_of_cons. right. left. reflexivity.
Qed.

(** X12: the two branches that splice in line, a status with ["400"] and a
    relayed redirect, run one copier, tagged with the client's id.  They
    return with both sockets closed and the client's id out of the pool,
    and leave every other entry, the upstream's among them, where it was.
    A status with ["400"] is never itself written to the client, also when
    it holds ["200"] or ["301"] as well. *)
Theorem inline_splice_keeps_upstream_id (cfg : config) (env : environment) (fd : nat)
    (pc : tcpConn) (cid : Z) (v : loopVars) (status : string) (w : world) :
  proxyConn v = tcp (Some pc) ->
  Contains status "400" = true \/ is_redirect cfg status = true ->
  exists w' evs,
    handleStatus cfg env (Client fd) cid v status w = Some ((Return, v), w') /\
    trace w' = trace w ++ evs ++ [Close (Client fd); Close pc] /\
    IoCopy (Client fd) pc ∈ evs /\
    (Contains status "400" = true -> forall format, Fprintf (Client fd) format ∉ evs) /\
    pool (cp w') !! cid = None /\
    (forall j, j <> cid -> pool (cp w') !! j = pool (cp w) !! j).
Proof.
  intros Hpc Hcase.
  destruct (handleStatus_cases cfg env (Client fd) pc cid v status w Hpc)
    as (counts & Hq & ->).
  assert (Hcounts : forall format, Fprintf (Client fd) format ∉ counts).
  { intros format Hin. rewrite forallb_forall in Hq.
    apply list_elem_of_In in Hin. specialize (Hq _ Hin). simpl in Hq.
    rewrite bool_decide_true in Hq by reflexivity. discriminate. }
  destruct (Contains status "400") eqn:H400.
  - eexists _, ([Incr Proxy400Responses; IoCopy (Client fd) pc] ++ counts).
    split; [reflexivity|]. cbn [trace cp].
    split; [rewrite <- !app_assoc; reflexivity|].
    split; [apply elem_of_app; left; right; left|].
    split.
    + intros _ format Hin. apply elem_of_app in Hin as [Hin|Hin].
      * apply elem_of_cons in Hin as [Hin|Hin]; [discriminate|].
        apply elem_of_cons in Hin as [Hin|Hin]; [discriminate | inversion Hin].
      * exact (Hcounts format Hin).
    + split; [rewrite pool_del_lookup, decide_True by reflexivity; reflexivity|].
      intros j Hj. rewrite pool_del_lookup, decide_False by exact Hj. reflexivity.
  - destruct Hcase as [Hc|Hred]; [discriminate|]. rewrite Hred.
    eexists _, ([Incr Proxy300Responses; Fprintf (Client fd) status;
                 IoCopy (Client fd) pc] ++ counts).
    split; [reflexivity|]. cbn [trace cp].
    split; [rewrite <- !app_assoc; reflexivity|].
    split; [apply elem_of_app; left; right; right; left|].
    split; [intros Hc; discriminate|].
    split; [rewrite pool_del_lookup, decide_True by reflexivity; reflexivity|].
    intros j Hj. rewrite pool_del_lookup, decide_False by exact Hj. reflexivity.
Qed.

Lemma inline_splice_keeps_upstream_id_witness :
  let cfg := sample_cfg 0 0 in
  let env := sample_env (Some 5%nat) None ("", "") in
  let v := {| proxyConn := tcp (Some (Remote 5)); rid := 2; host := "";
              handshakeBuf := "" |} in
  let status := "HTTP/1.0 400 Bad Request (200 301)" +:+ CRLF in
  let w := {| cp := pool_run [OpAdd (tcp (Some (Client 0))); OpAdd (tcp (Some (Remote 5)))];
              gReverseLookupCache := {| hostnames := ∅; keys := []; next := 0 |};
              trace := [] |} in
  exists w' evs,
    handleStatus cfg env (Client 1) 1 v status w = Some ((Return, v), w') /\
    trace w' = trace w ++ evs ++ [Close (Client 1); Close (Remote 5)] /\
    IoCopy (Client 1) (Remote 5) ∈ evs /\
    (Contains status "400" = true -> forall format, Fprintf (Client 1) format ∉ evs) /\
    pool (cp w') !! 1 = None /\
    (forall j, j <> 1 -> pool (cp w') !! j = pool (cp w) !! j).
Proof.
  intros cfg env v status w.
  apply (inline_splice_keeps_upstream_id cfg env 1 (Remote 5) 1 v status w).
  - reflexivity.
  - left. vm_compute. reflexivity.
Defined.

(** A turn that leaves the loop with success has a connected upstream in
    [proxyConn], registered in the pool under [rid]. *)
Lemma tryProxy_Break (cfg : config) (env : environment) (c : tcpConn)
    (ipv4 : string) (port cid : Z) (xff : string) (idx : nat) (spec : string)
    (v v' : loopVars) (w w' : world) :
  tryProxy cfg env c ipv4 port cid xff idx spec v w = Some ((Break, v'), w') ->
  exists n, proxyConn v' = tcp (Some (Remote n)) /\
            pool (cp w') !! rid v' = Some (tcp (Some (Remote n))).
Proof.
  intros Hrun.
  destruct (dial cfg env spec w) as [[[[conn rid1] err] w1]|] eqn:Hd.
  - assert (Hreg : dial_target env spec <> None -> pool (cp w1) !! rid1 = Some (tcp conn)).
    { intros Hsome.
      destruct (dial_inv _ _ _ _ _ _ _ _ Hd)
        as [(Hnone & _) | (? & ? & ? & ? & _ & _ & _ & _ & _ & Hp & _)].
      - congruence.
      - rewrite Hp. apply lookup_insert_eq. }
    destruct (dial_closes _ _ _ _ _ _ _ _ Hd) as [_ Hconn].
    destruct err.
    + rewrite (tryProxy_failed_dial _ _ _ _ _ _ _ _ _ _ _ _ _ _ Hd) in Hrun.
      discriminate.
    + destruct Hconn as [n ->].
      assert (Htarget : dial_target env spec <> None).
      { intros Hnone. rewrite dial_unresolved in Hd by exact Hnone. discriminate. }
      rewrite (tryProxy_connected cfg env c ipv4 port cid xff idx spec v w w1
                 (Remote n) rid1 Hd) in Hrun.
      set (hv := sniPeek cfg env ipv4 idx _) in Hrun.
      set (pre := Fprintf (Remote n) _ :: _) in Hrun.
      destruct (sniPeek_conn cfg env ipv4 idx
                  {| proxyConn := tcp (Some (Remote n)); rid := rid1; host := host v;
                     handshakeBuf := handshakeBuf v |}) as [Hc Hr].
      fold hv in Hc, Hr. cbn [proxyConn rid] in Hc, Hr.
      destruct (ReadString env (Remote n)) as [status|]; [|discriminate].
      destruct (handleStatus_cases cfg env c (Remote n) cid (snd hv) status
                  {| cp := cp w1; gReverseLookupCache := gReverseLookupCache w1;
                     trace := trace w1 ++ pre |} Hc) as (counts & _ & Hs).
      rewrite Hs in Hrun.
      destruct (Contains status "400"); [discriminate|].
      destruct (is_redirect cfg status); [discriminate|].
      destruct (Contains status "200"); [|discriminate].
      injection Hrun as <- <-. exists n. rewrite Hc, Hr. cbn [cp].
      split; [reflexivity | exact (Hreg Htarget)].
  - unfold tryProxy in Hrun. unfold_M. rewrite Hd in Hrun. discriminate.
Qed.

Lemma proxy_loop_Break (cfg : config) (env : environment) (c : tcpConn)
    (ipv4 : string) (port cid : Z) (xff : string) (proxies : list string) :
  forall (idx : nat) (v v' : loopVars) (w w' : world),
    proxy_loop cfg env c ipv4 port cid xff idx proxies v w = Some ((Break, v'), w') ->
    exists n, proxyConn v' = tcp (Some (Remote n)) /\
              pool (cp w') !! rid v' = Some (tcp (Some (Remote n))).
Proof.
  induction proxies as [|spec rest IH]; intros idx v v' w w' Hrun.
  - discriminate.
  - simpl in Hrun. unfold mbind, M_bind in Hrun.
    destruct (tryProxy cfg env c ipv4 port cid xff idx spec v w)
      as [[[ctl v1] w1]|] eqn:Ht; [|discriminate].
    destruct ctl.
    + eapply IH. exact Hrun.
    + injection Hrun as <- <-. eapply tryProxy_Break. exact Ht.
    + discriminate.
Qed.

(** X13: a proxied connection, once it succeeds, releases what it took.
    After a walk that ends with a 200 the handler starts two copiers, one
    tagged with the client's id and one with the upstream's, which the pool
    maps to the upstream connection.  When both have run, in either order,
    neither id is in the pool, the other entries are as they were, and both
    sockets are closed. *)
Theorem proxied_splice_releases_ids (cfg : config) (env : environment) (fd : nat)
    (remoteAddr ipv4 : string) (port cid : Z) (v : loopVars) (w w2 : world) :
  RemoteAddr env (Client fd) = Some remoteAddr ->
  proxy_walk cfg env (Client fd) remoteAddr ipv4 port cid w = Some ((Break, v), w2) ->
  exists n w3,
    let client := tcp (Some (Client fd)) in
    let upstream := tcp (Some (Remote n)) in
    let g1 := Go client upstream "client" "proxyserver" cid in
    let g2 := Go upstream client "proxyserver" "client" (rid v) in
    proxyConn v = upstream /\
    pool (cp w2) !! rid v = Some upstream /\
    handleProxyConnection cfg env (Some (Client fd)) ipv4 port cid w = Some (tt, w3) /\
    cp w3 = cp w2 /\
    trace w3 = trace w2 ++ [Incr ProxiedConnections; g1; g2] /\
    forall started, started = [g1; g2] \/ started = [g2; g1] ->
      exists w4,
        run_all env started w3 = Some (tt, w4) /\
        pool (cp w4) !! cid = None /\
        pool (cp w4) !! rid v = None /\
        (forall j, j <> cid -> j <> rid v -> pool (cp w4) !! j = pool (cp w2) !! j) /\
        Close (Client fd) ∈ trace w4 /\ Close (Remote n) ∈ trace w4.
Proof.
  intros Haddr Hwalk.
  assert (Hloop := Hwalk). unfold proxy_walk in Hloop. unfold mbind, M_bind in Hloop.
  destruct (reverseLookup cfg env ipv4 w) as [[ipv4' w1]|]; [|discriminate].
  apply proxy_loop_Break in Hloop as (n & Hconn & Hreg).
  exists n. eexists. cbv zeta.
  split; [exact Hconn|]. split; [exact Hreg|].
  split.
  { unfold handleProxyConnection. rewrite Haddr. unfold mbind at 1. unfold M_bind at 1.
    rewrite Hwalk. rewrite Hconn. unfold_M. cbn. rewrite <- !app_assoc. reflexivity. }
  cbn [cp trace]. split; [reflexivity|]. split; [reflexivity|].
  intros started [-> | ->].
  - match goal with
    | |- context [run_all env _ ?w3] =>
        destruct (run_pair env (Client fd) (Remote n) "client" "proxyserver"
                    "proxyserver" "client" cid (rid v) w3) as (w4 & Hr & Hp & _ & Ha & Hb)
    end.
    exists w4. split; [exact Hr|]. cbn [cp] in Hp.
    split; [rewrite Hp, decide_True by auto; reflexivity|].
    split; [rewrite Hp, decide_True by auto; reflexivity|].
    split; [|split; assumption].
    intros j H1 H2. rewrite Hp, decide_False by tauto. reflexivity.
  - match goal with
    | |- context [run_all env _ ?w3] =>
        destruct (run_pair env (Remote n) (Client fd) "proxyserver" "client"
                    "client" "proxyserver" (rid v) cid w3) as (w4 & Hr & Hp & _ & Ha & Hb)
    end.
    exists w4. split; [exact Hr|]. cbn [cp] in Hp.
    split; [rewrite Hp, decide_True by auto; reflexivity|].
    split; [rewrite Hp, decide_True by auto; reflexivity|].
    split; [|split; assumption].
    intros j H1 H2. rewrite Hp, decide_False by tauto. reflexivity.
Qed.

Lemma proxied_splice_releases_ids_witness :
  let cfg := sample_cfg 0 0 in
  let env := sample_env (Some 5%nat) (Some ("HTTP/1.0 200 OK" +:+ CRLF)) ("", "") in
  let w := {| cp := pool_run [OpAdd (tcp (Some (Client 0)))];
              gReverseLookupCache := {| hostnames := ∅; keys := []; next := 0 |};
              trace := [] |} in
  exists v w2 n w3 w4,
    proxy_walk cfg env (Client 1) "198.51.100.7:40000" "206.190.36.45" 8080 1 w =
      Some ((Break, v), w2) /\
    handleProxyConnection cfg env (Some (Client 1)) "206.190.36.45" 8080 1 w =
      Some (tt, w3) /\
    run_all env [Go (tcp (Some (Client 1))) (tcp (Some (Remote n))) "client" "proxyserver" 1;
                 Go (tcp (Some (Remote n))) (tcp (Some (Client 1))) "proxyserver" "client"
                    (rid v)] w3 = Some (tt, w4) /\
    pool (cp w4) !! 1 = None /\ pool (cp w4) !! rid v = None.
Proof.
  intros cfg env w.
  destruct (proxy_walk cfg env (Client 1) "198.51.100.7:40000" "206.190.36.45" 8080 1 w)
    as [[[[| |] v] w2]|] eqn:Hwalk;
    try (exfalso; revert Hwalk; vm_compute; discriminate).
  destruct (proxied_splice_releases_ids cfg env 1 "198.51.100.7:40000" "206.190.36.45"
              8080 1 v w w2 eq_refl Hwalk) as (n & w3 & _ & _ & Hh & _ & _ & Hrun).
  destruct (Hrun _ (or_introl eq_refl)) as (w4 & Hr & Hc & Hu & _).
  exists v, w2, n, w3, w4. auto.
Defined.

(** ** The direct route *)

(** X14: the direct route dials [ipv4:port].  When the dial fails the
    handler returns at once: it adds no event of its own, so the client
    connection is neither answered nor closed, and the pool is as [dial]
    left it.  When it succeeds the handler starts two copiers, labelled
    client and directserver; once both have run, in either order, the
    client's id and the server's id are out of the pool and both sockets
    are closed. *)
Theorem direct_route (cfg : config) (env : environment) (fd : nat)
    (remoteAddr ipv4 : string) (port cid : Z) (w w1 : world)
    (conn : option tcpConn) (rid1 : Z) (err : bool) :
  RemoteAddr env (Client fd) = Some remoteAddr ->
  dial cfg env (ipv4 +:+ ":" +:+ fmt_d port) w = Some ((conn, rid1, err), w1) ->
  if err then
    handleDirectConnection cfg env (Some (Client fd)) ipv4 port cid w = Some (tt, w1)
  else
    exists n w3,
      let client := tcp (Some (Client fd)) in
      let server := tcp (Some (Remote n)) in
      let g1 := Go client server "client" "directserver" cid in
      let g2 := Go server client "directserver" "client" rid1 in
      conn = Some (Remote n) /\
      handleDirectConnection cfg env (Some (Client fd)) ipv4 port cid w = Some (tt, w3) /\
      cp w3 = cp w1 /\
      trace w3 = trace w1 ++ [Incr DirectConnections; g1; g2] /\
      forall started, started = [g1; g2] \/ started = [g2; g1] ->
        exists w4,
          run_all env started w3 = Some (tt, w4) /\
          pool (cp w4) !! cid = None /\
          pool (cp w4) !! rid1 = None /\
          (forall j, j <> cid -> j <> rid1 -> pool (cp w4) !! j = pool (cp w1) !! j) /\
          Close (Client fd) ∈ trace w4 /\ Close (Remote n) ∈ trace w4.
Proof.
  intros Haddr Hd.
  destruct (dial_closes _ _ _ _ _ _ _ _ Hd) as [_ Hconn].
  destruct err.
  - unfold handleDirectConnection. rewrite Haddr. unfold_M. rewrite Hd. reflexivity.
  - destruct Hconn as [n ->]. exists n. eexists. cbv zeta.
    split; [reflexivity|]. split.
    { unfold handleDirectConnection. rewrite Haddr. unfold_M. rewrite Hd. cbn.
      rewrite <- !app_assoc. reflexivity. }
    cbn [cp trace]. split; [reflexivity|]. split; [reflexivity|].
    intros started [-> | ->].
    + match goal with
      | |- context [run_all env _ ?w3] =>
          destruct (run_pair env (Client fd) (Remote n) "client" "directserver"
                      "directserver" "client" cid rid1 w3) as (w4 & Hr & Hp & _ & Ha & Hb)
      end.
      exists w4. split; [exact Hr|]. cbn [cp] in Hp.
      split; [rewrite Hp, decide_True by auto; reflexivity|].
      split; [rewrite Hp, decide_True by auto; reflexivity|].
      split; [|split; assumption].
      intros j H1 H2. rewrite Hp, decide_False by tauto. reflexivity.
    + match goal with
      | |- context [run_all env _ ?w3] =>
          destruct (run_pair env (Remote n) (Client fd) "directserver" "client"
                      "client" "directserver" rid1 cid w3) as (w4 & Hr & Hp & _ & Ha & Hb)
      end.
      exists w4. split; [exact Hr|]. cbn [cp] in Hp.
      split; [rewrite Hp, decide_True by auto; reflexivity|].
      split; [rewrite Hp, decide_True by auto; reflexivity|].
      split; [|split; assumption].
      intros j H1 H2. rewrite Hp, decide_False by tauto. reflexivity.
Qed.

Lemma direct_route_witness :
  let cfg := sample_cfg 0 0 in
  let env := sample_env None None ("", "") in
  let w := {| cp := pool_run [OpAdd (tcp (Some (Client 0)))];
              gReverseLookupCache := {| hostnames := ∅; keys := []; next := 0 |};
              trace := [] |} in
  handleDirectConnection cfg env (Some (Client 1)) "10.0.0.9" 3128 1 w =
    Some (tt, {| cp := {| pool := <[2 := tcp None]> (pool (cp w)); idCounter := 2 |};
                 gReverseLookupCache := gReverseLookupCache w;
                 trace := [] |}).
Proof.
  intros cfg env w.
  apply (direct_route cfg env 1 "198.51.100.7:40000" "10.0.0.9" 3128 1 w _ None 2 true).
  - reflexivity.
  - reflexivity.
Defined.

(** ** Failover *)

(** X15: failover is in the order of the list and stops at the first
    upstream that does not end in "try the next proxy": when the upstreams
    before it were all passed over and it answers (a 200, or a response
    that is spliced in line), the walk ends there with its result, and what
    comes after it in the list plays no part. *)
Theorem failover_stops_at_first_answer (cfg : config) (env : environment)
    (c : tcpConn) (ipv4 : string) (port cid : Z) (xff : string)
    (before : list string) (spec : string) (after : list string) :
  forall (idx : nat) (v v1 v2 : loopVars) (w w1 w2 : world) (ctl : control),
    proxy_loop cfg env c ipv4 port cid xff idx before v w = Some ((Next, v1), w1) ->
    tryProxy cfg env c ipv4 port cid xff (idx + length before) spec v1 w1 =
      Some ((ctl, v2), w2) ->
    ctl <> Next ->
    proxy_loop cfg env c ipv4 port cid xff idx (before ++ spec :: after) v w =
      Some ((ctl, v2), w2).
Proof.
  induction before as [|spec0 before IH]; intros idx v v1 v2 w w1 w2 ctl Hbefore Hspec Hctl.
  - injection Hbefore as <- <-. simpl in Hspec |- *. rewrite Nat.add_0_r in Hspec.
    unfold mbind, M_bind. rewrite Hspec. destruct ctl; [contradiction | reflexivity..].
  - simpl in Hbefore |- *. unfold mbind, M_bind in Hbefore |- *.
    destruct (tryProxy cfg env c ipv4 port cid xff idx spec0 v w)
      as [[[ctl0 v0] w0]|]; [|discriminate].
    destruct ctl0; try (injection Hbefore as Hc; discriminate).
    apply (IH (S idx) v0 v1 v2 w0 w1 w2 ctl Hbefore); [|exact Hctl].
    replace (S idx + length before)%nat with (idx + length (spec0 :: before))%nat
      by (simpl; lia).
    exact Hspec.
Qed.

Lemma failover_stops_at_first_answer_witness :
  let cfg := sample_cfg 0 0 in
  let env := sample_env (Some 5%nat) (Some ("HTTP/1.0 200 OK" +:+ CRLF)) ("", "") in
  let v := {| proxyConn := nilConn; rid := 0; host := "198.51.100.7"; handshakeBuf := "" |} in
  let w := {| cp := newClientPool;
              gReverseLookupCache := {| hostnames := ∅; keys := []; next := 0 |};
              trace := [] |} in
  let after := ["10.0.0.10:3128"; "unknown.invalid:81"] in
  exists v2 w2,
    proxy_loop cfg env (Client 1) "206.190.36.45" 8080 1 "" 0
      (["unknown.invalid:80"] ++ "10.0.0.9:3128" :: after) v w = Some ((Break, v2), w2).
Proof.
  intros cfg env v w after.
  destruct (tryProxy cfg env (Client 1) "206.190.36.45" 8080 1 "" 1 "10.0.0.9:3128"
              {| proxyConn := tcp None; rid := 0; host := "198.51.100.7";
                 handshakeBuf := "" |} w)
    as [[[[| |] v2] w2]|] eqn:Hspec;
    try (exfalso; revert Hspec; vm_compute; discriminate).
  exists v2, w2.
  apply (failover_stops_at_first_answer cfg env (Client 1) "206.190.36.45" 8080 1 ""
           ["unknown.invalid:80"] "10.0.0.9:3128" after 0 v
           {| proxyConn := tcp None; rid := 0; host := "198.51.100.7"; handshakeBuf := "" |}
           v2 w w w2 Break).
  - reflexivity.
  - exact Hspec.
  - discriminate.
Defined.

(** ** Start-up *)

Lemma Split_char_cons (sep : ascii) (s : string) :
  exists piece pieces, Split_char sep s = piece :: pieces.
Proof.
  induction s as [|c s IH]; simpl; [eauto|].
  destruct (Ascii.eqb c sep); [eauto|].
  destruct IH as (piece & pieces & ->). eauto.
Qed.

Lemma Split_comma_char (s : string) : Split_comma s = Split_char ","%char s.
Proof. induction s as [|c s IH]; simpl; [reflexivity|]. rewrite IH. reflexivity. Qed.

Lemma Contains_char (sep : ascii) (c : ascii) (s : string) :
  Contains (String c s) (String sep "") = Ascii.eqb c sep || Contains s (String sep "").
Proof.
  change (Contains (String c s) (String sep ""))
    with (String.prefix (String sep "") (String c s) || Contains s (String sep "")).
  f_equal. simpl. destruct (ascii_dec sep c) as [->|Hne].
  - rewrite Ascii.eqb_refl. destruct s; reflexivity.
  - symmetry. apply Ascii.eqb_neq. congruence.
Qed.

(** A string that contains the separator splits into two pieces at
    least. *)
Lemma Split_char_two (sep : ascii) (s : string) :
  Contains s (String sep "") = true ->
  exists a b rest, Split_char sep s = a :: b :: rest.
Proof.
  induction s as [|c s IH]; intros H.
  - discriminate.
  - rewrite Contains_char in H. simpl.
    destruct (Ascii.eqb c sep).
    + destruct (Split_char_cons sep s) as (piece & pieces & ->). eauto.
    + destruct (IH H) as (a & b & rest & ->). eauto.
Qed.

(** Taking the credentials off a spec never panics when the index is within
    the slice, and leaves the length alone. *)
Lemma stripAuth_returns (base64 : string -> string) (i : nat) (proxySpec : string)
    (st : startupVars) :
  (i < servers_len st)%nat ->
  exists st',
    stripAuth base64 i proxySpec st = Some (specWithoutAuth proxySpec, st') /\
    servers_len st' = servers_len st /\
    servers_array st' = (if Contains proxySpec "@"
                         then <[i := specWithoutAuth proxySpec]> (servers_array st)
                         else servers_array st) /\
    (Contains proxySpec "@" = true -> is_Some (authServers st' !! specWithoutAuth proxySpec)) /\
    (forall k, is_Some (authServers st !! k) -> is_Some (authServers st' !! k)).
Proof.
  intros Hi. unfold stripAuth, specWithoutAuth.
  destruct (Contains proxySpec "@") eqn:Hat.
  - destruct (Split_char_two "@"%char proxySpec Hat) as (a & b & rest & ->).
    cbn [lookup list_lookup default].
    apply Nat.ltb_lt in Hi. rewrite Hi.
    eexists. split; [reflexivity|]. cbn [servers_len servers_array authServers].
    split; [reflexivity|]. split; [reflexivity|]. split.
    + intros _. rewrite lookup_insert_eq. eauto.
    + intros k Hk. destruct (decide (k = b)) as [->|Hne].
      * rewrite lookup_insert_eq. eauto.
      * rewrite lookup_insert_ne by congruence. exact Hk.
  - exists st. repeat split; auto. discriminate.
Qed.

Lemma stripAuth_len (base64 : string -> string) (i : nat) (proxySpec spec : string)
    (st st' : startupVars) :
  stripAuth base64 i proxySpec st = Some (spec, st') ->
  servers_len st' = servers_len st /\ spec = specWithoutAuth proxySpec /\
  length (servers_array st') = length (servers_array st).
Proof.
  unfold stripAuth, specWithoutAuth. destruct (Contains proxySpec "@").
  - destruct (Split_char "@"%char proxySpec !! 0%nat); [|discriminate].
    destruct (Split_char "@"%char proxySpec !! 1%nat); [|discriminate].
    destruct (i <? servers_len st)%nat; [|discriminate].
    intros H. injection H as <- <-. cbn. rewrite length_insert. auto.
  - intros H. injection H as <- <-. auto.
Qed.

(** With the check skipped the loop rewrites the specs in place, one per
    turn, and never panics. *)
Lemma checkProxies_loop_skip (env : environment) (base64 : string -> string)
    (pieces : list string) :
  forall (n i : nat) (st : startupVars),
    (i + n = length pieces)%nat ->
    servers_len st = length pieces ->
    servers_array st = map specWithoutAuth (take i pieces) ++ drop i pieces ->
    exists st',
      checkProxies_loop env base64 1 n i st = Some st' /\
      servers_len st' = length pieces /\
      servers_array st' = map specWithoutAuth pieces /\
      (forall p, p ∈ drop i pieces -> Contains p "@" = true ->
                 is_Some (authServers st' !! specWithoutAuth p)) /\
      (forall k, is_Some (authServers st !! k) -> is_Some (authServers st' !! k)).
Proof.
  induction n as [|n IH]; intros i st Hin Hlen Harr.
  - exists st. split; [reflexivity|]. split; [exact Hlen|].
    assert (i = length pieces) by lia. subst i.
    rewrite firstn_all, drop_all, app_nil_r in Harr.
    split; [exact Harr|]. rewrite drop_all.
    split; [intros p Hp; inversion Hp | auto].
  - assert (Hi : (i < length pieces)%nat) by lia.
    destruct (lookup_lt_is_Some_2 pieces i Hi) as [p Hp].
    assert (Hread : servers_array st !! i = Some p).
    { rewrite Harr. rewrite lookup_app_r; rewrite length_map, length_take; [|lia].
      replace (i - i `min` length pieces)%nat with 0%nat by lia.
      rewrite lookup_drop, Nat.add_0_r. exact Hp. }
    destruct (stripAuth_returns base64 i p st) as (st1 & Hstrip & Hl1 & Ha1 & Hauth1 & Hkeep1);
      [lia|].
    assert (Harr1 : servers_array st1 =
                    map specWithoutAuth (take (S i) pieces) ++ drop (S i) pieces).
    { rewrite Ha1. rewrite (take_S_r _ _ _ Hp), map_app. cbn [map].
      rewrite <- app_assoc. cbn [app].
      assert (Hsplit : servers_array st =
                       map specWithoutAuth (take i pieces) ++ p :: drop (S i) pieces).
      { rewrite Harr. f_equal. apply drop_S. exact Hp. }
      destruct (Contains p "@") eqn:Hat.
      - rewrite Hsplit.
        replace i with (length (map specWithoutAuth (take i pieces)) + 0)%nat at 1
          by (rewrite length_map, length_take; lia).
        rewrite insert_app_r. reflexivity.
      - rewrite Hsplit. unfold specWithoutAuth. rewrite Hat. reflexivity. }
    destruct (IH (S i) st1) as (st' & Hloop & Hl' & Ha' & Hauth' & Hkeep');
      [lia | congruence | exact Harr1 |].
    exists st'. split.
    { cbn [checkProxies_loop]. unfold checkProxy. rewrite Hread, Hstrip.
      change (1 =? 1) with true. cbv iota. exact Hloop. }
    split; [exact Hl'|]. split; [exact Ha'|]. split.
    + intros q Hq Hat. rewrite (drop_S _ _ _ Hp) in Hq.
      apply elem_of_cons in Hq as [->|Hq]; [|exact (Hauth' q Hq Hat)].
      apply Hkeep'. apply Hauth1. exact Hat.
    + intros k Hk. apply Hkeep'. apply Hkeep1. exact Hk.
Qed.

(** With the check on, a loop that gets through [n] turns has removed [n]
    specs, which the bounds of its slices allow only while
    [i + 2 * n <= len + 1]. *)
Lemma checkProxies_loop_check (env : environment) (base64 : string -> string)
    (skip : Z) :
  skip <> 1 ->
  forall (n i : nat) (st st' : startupVars),
    checkProxies_loop env base64 skip n i st = Some st' ->
    (servers_len st' + n = servers_len st)%nat /\
    (n <> 0%nat -> i + 2 * n <= servers_len st + 1)%nat.
Proof.
  intros Hskip. apply Z.eqb_neq in Hskip.
  induction n as [|n IH]; intros i st st' Hrun.
  - injection Hrun as <-. split; [lia | intros H; contradiction].
  - cbn [checkProxies_loop] in Hrun.
    destruct (checkProxy env base64 skip i st) as [st1|] eqn:Hstep; [|discriminate].
    unfold checkProxy in Hstep. rewrite Hskip in Hstep.
    destruct (servers_array st !! i) as [p|]; [|discriminate].
    destruct (stripAuth base64 i p st) as [[spec st0]|] eqn:Hstrip; [|discriminate].
    apply stripAuth_len in Hstrip as (Hl0 & _ & _).
    destruct (dial_before_pool env spec); [|discriminate].
    unfold removeServer in Hstep.
    destruct (length (servers_array st0) <? i)%nat; [discriminate|].
    destruct (servers_len st0 <? i + 1)%nat eqn:Hb; [discriminate|].
    apply Nat.ltb_ge in Hb. injection Hstep as <-.
    apply IH in Hrun as [Hlen Hbound]. cbn [servers_len] in Hlen, Hbound.
    split; [lia|]. intros _. destruct n as [|n]; [lia|].
    specialize (Hbound ltac:(lia)). lia.
Qed.

(** X16: with the reachability check skipped ([-s=1]), [checkProxies]
    always returns: the upstream list has one entry for each piece of the
    comma-separated spec, in order, a piece with an ['@'] being replaced by
    its second ['@']-separated part (what follows the credentials); the list
    is never empty, and every upstream that came with credentials has an
    entry in the credentials map. *)
Theorem checkProxies_without_check (env : environment) (base64 : string -> string)
    (gProxyServerSpec : string) :
  exists auth,
    checkProxies env base64 1 gProxyServerSpec =
      Started (map specWithoutAuth (Split_comma gProxyServerSpec), auth) /\
    map specWithoutAuth (Split_comma gProxyServerSpec) <> [] /\
    forall p, p ∈ Split_comma gProxyServerSpec -> Contains p "@" = true ->
              is_Some (auth !! specWithoutAuth p).
Proof.
  set (pieces := Split_comma gProxyServerSpec).
  assert (Hne : pieces <> []).
  { subst pieces. rewrite Split_comma_char.
    destruct (Split_char_cons ","%char gProxyServerSpec) as (p & ps & ->). discriminate. }
  destruct (checkProxies_loop_skip env base64 pieces (length pieces) 0
              {| servers_array := pieces; servers_len := length pieces; authServers := ∅ |})
    as (st' & Hloop & Hlen & Harr & Hauth & _); [lia | reflexivity | reflexivity |].
  exists (authServers st'). unfold checkProxies. fold pieces. rewrite Hloop, Hlen, Harr.
  destruct (length pieces) eqn:Hl; [destruct pieces; [contradiction | discriminate]|].
  cbn [Nat.eqb]. rewrite <- Hl, <- (length_map specWithoutAuth), firstn_all.
  split; [reflexivity|]. split; [destruct pieces; [contradiction | discriminate]|].
  exact Hauth.
Qed.

(** X17: with the reachability check on, [checkProxies] never returns to
    [main].  [main] has not created the pool yet, so a spec that gets as far
    as the TCP connect panics in [dial]; and the removal of a failed spec
    shortens the slice the loop is ranging over, so a second removal runs
    past its bounds.  The process exits cleanly only when the list is one
    spec that fails before the connect; in every other case it panics. *)
Theorem checkProxies_with_check (env : environment) (base64 : string -> string)
    (gSkipCheckUpstreamsReachable : Z) (gProxyServerSpec : string) :
  gSkipCheckUpstreamsReachable <> 1 ->
  (forall r, checkProxies env base64 gSkipCheckUpstreamsReachable gProxyServerSpec
             <> Started r) /\
  (checkProxies env base64 gSkipCheckUpstreamsReachable gProxyServerSpec = Exited <->
   exists p, Split_comma gProxyServerSpec = [p] /\
             dial_before_pool env (specWithoutAuth p) = Some tt).
Proof.
  intros Hskip. unfold checkProxies.
  set (pieces := Split_comma gProxyServerSpec).
  assert (Hne : pieces <> []).
  { subst pieces. rewrite Split_comma_char.
    destruct (Split_char_cons ","%char gProxyServerSpec) as (p & ps & ->). discriminate. }
  destruct (checkProxies_loop env base64 gSkipCheckUpstreamsReachable (length pieces) 0
              {| servers_array := pieces; servers_len := length pieces; authServers := ∅ |})
    as [st'|] eqn:Hloop.
  - pose proof (checkProxies_loop_check env base64 _ Hskip _ _ _ _ Hloop) as [Hlen Hbound].
    cbn [servers_len] in Hlen, Hbound.
    assert (Hone : length pieces = 1%nat).
    { destruct pieces as [|p ps]; [contradiction|]. simpl in *.
      specialize (Hbound ltac:(lia)). lia. }
    assert (Hzero : servers_len st' = 0%nat) by lia.
    rewrite Hzero. cbn [Nat.eqb]. split; [intros r; discriminate|].
    split; [|reflexivity]. intros _.
    destruct pieces as [|p [|q ps]]; try discriminate. exists p. split; [reflexivity|].
    cbn [length checkProxies_loop] in Hloop. unfold checkProxy in Hloop.
    cbn [servers_array] in Hloop. change ([p] !! 0%nat) with (Some p) in Hloop.
    cbv iota beta in Hloop.
    destruct (stripAuth base64 0 p
                {| servers_array := [p]; servers_len := 1; authServers := ∅ |})
      as [[spec st0]|] eqn:Hstrip; [|discriminate].
    apply stripAuth_len in Hstrip as (_ & -> & _).
    apply Z.eqb_neq in Hskip. rewrite Hskip in Hloop.
    destruct (dial_before_pool env (specWithoutAuth p)) as [[]|]; [reflexivity | discriminate].
  - split; [intros r; discriminate|]. split; [discriminate|].
    intros (p & Hp & Hdial). exfalso. rewrite Hp in Hloop.
    cbn [length checkProxies_loop] in Hloop. unfold checkProxy in Hloop.
    cbn [servers_array] in Hloop. change ([p] !! 0%nat) with (Some p) in Hloop.
    cbv iota beta in Hloop.
    destruct (stripAuth_returns base64 0 p
                {| servers_array := [p]; servers_len := 1; authServers := ∅ |})
      as (st1 & Hstrip & Hl1 & Ha1 & _); [cbn; lia|].
    rewrite Hstrip in Hloop. apply Z.eqb_neq in Hskip. rewrite Hskip, Hdial in Hloop.
    unfold removeServer in Hloop. rewrite Hl1 in Hloop.
    assert (Hlen1 : length (servers_array st1) = 1%nat).
    { rewrite Ha1. destruct (Contains p "@"); [rewrite length_insert|]; reflexivity. }
    rewrite Hlen1 in Hloop. cbn in Hloop. discriminate.
Qed.

Lemma checkProxies_with_check_witness :
  let env := sample_env None None ("", "") in
  (forall r, checkProxies env (fun s => s) 0 "10.0.0.9:3128,unknown.invalid:80"
             <> Started r) /\
  (checkProxies env (fun s => s) 0 "10.0.0.9:3128,unknown.invalid:80" = Exited <->
   exists p, Split_comma "10.0.0.9:3128,unknown.invalid:80" = [p] /\
             dial_before_pool env (specWithoutAuth p) = Some tt).
Proof.
  intros env.
  apply (checkProxies_with_check env (fun s => s) 0 "10.0.0.9:3128,unknown.invalid:80").
  discriminate.
Defined.

(** When [checkProxies] returns, the check was skipped and the list is the
    specs without their credentials. *)
Lemma checkProxies_started (env : environment) (base64 : string -> string)
    (skip : Z) (spec : string) (r : list string * gmap string string) :
  checkProxies env base64 skip spec = Started r ->
  skip = 1 /\ fst r = map specWithoutAuth (Split_comma spec) /\ fst r <> [].
Proof.
  unfold checkProxies. set (pieces := Split_comma spec).
  assert (Hne : pieces <> []).
  { subst pieces. rewrite Split_comma_char.
    destruct (Split_char_cons ","%char spec) as (p & ps & ->). discriminate. }
  destruct (decide (skip = 1)) as [->|Hskip].
  - destruct (checkProxies_loop_skip env base64 pieces (length pieces) 0
                {| servers_array := pieces; servers_len := length pieces; authServers := ∅ |})
      as (st' & Hloop & Hlen & Harr & _); [lia | reflexivity | reflexivity |].
    rewrite Hloop, Hlen, Harr.
    destruct (length pieces) eqn:Hl; [destruct pieces; [contradiction | discriminate]|].
    cbn [Nat.eqb]. rewrite <- Hl, <- (length_map specWithoutAuth), firstn_all.
    intros H. injection H as <-. cbn [fst]. split; [reflexivity|]. split; [reflexivity|].
    destruct pieces; [contradiction | discriminate].
  - destruct (checkProxies_loop env base64 skip (length pieces) 0 _) as [st'|] eqn:Hloop;
      [|discriminate].
    pose proof (checkProxies_loop_check env base64 _ Hskip _ _ _ _ Hloop) as [Hlen Hbound].
    cbn [servers_len] in Hlen, Hbound.
    assert (Hzero : servers_len st' = 0%nat).
    { destruct pieces as [|p ps]; [contradiction|]. simpl in *.
      specialize (Hbound ltac:(lia)). lia. }
    rewrite Hzero. discriminate.
Qed.

(** X18: [main] gets to its accept loop only if the listen address was
    given, the [-d] list parsed, the socket opened and [-M] is 1024 or more;
    the pool and the trace are then empty.  If upstreams were given ([-p]),
    it gets there only with the reachability check skipped ([-s=1]), and
    serves with one upstream for each comma-separated spec, credentials
    removed; without [-p] it serves with no upstream.  The other settings are
    those of the flags. *)
Theorem main_reaches_accept_loop (env : environment) (base64 : string -> string)
    (listen : string -> bool) (gListenAddrPort : string)
    (gSkipCheckUpstreamsReachable : Z) (cfg cfg' : config) (w : world) :
  main_startup env base64 listen gListenAddrPort gSkipCheckUpstreamsReachable cfg
    = Started (cfg', w) ->
  gListenAddrPort <> "" /\
  is_Some (buildDirectors env (gDirects cfg')) /\
  listen gListenAddrPort = true /\
  1024 <= gMaxConn cfg' /\
  w = initial_world /\
  (if String.eqb (gProxyServerSpec cfg) "" then gProxyServers cfg' = []
   else gSkipCheckUpstreamsReachable = 1 /\
        gProxyServers cfg' = map specWithoutAuth (Split_comma (gProxyServerSpec cfg)) /\
        gProxyServers cfg' <> []) /\
  gProxyServerSpec cfg' = gProxyServerSpec cfg /\ gDirects cfg' = gDirects cfg /\
  gClientRedirects cfg' = gClientRedirects cfg /\
  gReverseLookups cfg' = gReverseLookups cfg /\
  gSNIParsing cfg' = gSNIParsing cfg /\ gMaxConn cfg' = gMaxConn cfg.
Proof.
  unfold main_startup. intros H.
  destruct (String.eqb gListenAddrPort "") eqn:Haddr; [discriminate|].
  destruct (buildDirectors env (gDirects cfg)) as [dirFuncs|] eqn:Hdirs; [|discriminate].
  assert (Hstart : exists servers auth,
             (if String.eqb (gProxyServerSpec cfg) "" then Started ([], ∅)
              else checkProxies env base64 gSkipCheckUpstreamsReachable
                     (gProxyServerSpec cfg)) = Started (servers, auth)).
  { destruct (if String.eqb (gProxyServerSpec cfg) "" then _ else _) as [[servers auth]| |];
      [eauto | discriminate | discriminate]. }
  destruct Hstart as (servers & auth & Hstart). rewrite Hstart in H.
  destruct (listen gListenAddrPort) eqn:Hlisten; [|discriminate]. cbn [negb] in H.
  destruct (gMaxConn cfg <? 1024) eqn:Hmax; [discriminate|].
  apply Z.ltb_ge in Hmax. injection H as <- <-.
  cbn [gProxyServerSpec gDirects gProxyServers gClientRedirects gReverseLookups
       gSNIParsing gMaxConn].
  split; [apply String.eqb_neq; exact Haddr|].
  split; [rewrite Hdirs; eauto|].
  split; [reflexivity|]. split; [exact Hmax|]. split; [reflexivity|].
  split; [|repeat split].
  destruct (String.eqb (gProxyServerSpec cfg) "").
  - injection Hstart as <- _. reflexivity.
  - apply checkProxies_started in Hstart. exact Hstart.
Qed.

Lemma main_reaches_accept_loop_witness :
  let env := sample_env None None ("", "") in
  let cfg := {| gProxyServerSpec := "user:secret@10.0.0.9:3128,10.0.0.10:3128";
                gDirects := "";
                gProxyServers := [];
                gAuthProxyServers := ∅;
                gClientRedirects := 0;
                gReverseLookups := 1;
                gSNIParsing := 0;
                gMaxConn := 4096 |} in
  exists cfg',
    main_startup env (fun s => s) (fun _ => true) ":3140" 1 cfg = Started (cfg', initial_world) /\
    gProxyServers cfg' = ["10.0.0.9:3128"; "10.0.0.10:3128"] /\
    1024 <= gMaxConn cfg'.
Proof.
  intros env cfg.
  destruct (main_startup env (fun s => s) (fun _ => true) ":3140" 1 cfg)
    as [[cfg' w]| |] eqn:H;
    try (exfalso; revert H; cbv -[initial_world]; discriminate).
  pose proof (main_reaches_accept_loop env (fun s => s) (fun _ => true) ":3140" 1 cfg cfg' w H)
    as (_ & _ & _ & Hmax & -> & Hservers & _).
  exists cfg'. split; [reflexivity|]. split; [|exact Hmax].
  destruct Hservers as (_ & -> & _). reflexivity.
Defined.
